(** * purellvmpy.core.builder: the IR builder and its cursor

    A shallow embedding of [src/purellvmpy/core/builder.py].  Python objects
    that are mutated in place (basic blocks) live in a store indexed by
    address; the builder holds the address of its current block and an
    integer anchor.  Every method of [IRBuilder] is a computation in a small
    state-and-exception monad: a raised exception carries the store as it was
    when the exception was raised, so that "the failed call did not touch the
    block" is a statement about that store. *)

From stdpp Require Import base option list strings gmap fin_maps.
From Stdlib Require Import ZArith Lia.

Open Scope string_scope.
Open Scope list_scope.
Open Scope Z_scope.

(** ** Type descriptors *)

(** Modelled from the spec: the module [lltypes] is not part of the sources.
    A type descriptor is a value compared structurally; the spec names the
    integer of a given width and the pointer to a type, the floating-point
    kinds feed the [fcmp] family and the label kind is the type of a block. *)
Inductive lltype : Type :=
  | IntType (bits : Z)
  | FloatType
  | DoubleType
  | LabelType
  | PointerType (pointee : lltype).

#[global] Instance lltype_eq_dec : EqDecision lltype.
Proof. solve_decision. Defined.

(** ** Values *)

(** Addresses of mutable objects.  A function is only ever used as the
    back-reference stored in an instruction, so its address is all the
    builder needs of it. *)
Definition addr := nat.
Definition Function := addr.

(** One constructor per class of [llvalues] that [builder.py] instantiates,
    with the arguments in the order of the call in the source.  A basic block
    is passed around by reference ([BlockRef]); it appears among the operands
    of a terminator. *)
#[warnings="-register-all"]
Inductive Value : Type :=
  | Constant (typ : lltype) (val : Z)
  | Instruction (parent : Function) (typ : option lltype) (opname : string)
                (operands : list Value) (name : string)
  | CastInstr (parent : Function) (opname : string) (val : Value)
              (typ : lltype) (name : string)
  | ICMPInstr (parent : Function) (op : string) (lhs rhs : Value) (name : string)
  | FCMPInstr (parent : Function) (op : string) (lhs rhs : Value) (name : string)
  | AllocaInstr (parent : Function) (typ : lltype) (count : option Value)
                (name : string)
  | LoadInstr (parent : Function) (ptr : Value) (name : string)
  | StoreInstr (parent : Function) (val ptr : Value)
  | Terminator (parent : Function) (opname : string) (operands : list Value)
  | BlockRef (block : addr).

Fixpoint Value_eq_dec (x y : Value) {struct x} : {x = y} + {x <> y}.
Proof.
  decide equality;
    try apply String.string_dec; try apply Nat.eq_dec; try apply Z.eq_dec;
    try apply lltype_eq_dec;
    try (apply (@list_eq_dec _ Value_eq_dec));
    try (apply (@option_eq_dec _ Value_eq_dec));
    try (apply (@option_eq_dec _ lltype_eq_dec)).
Defined.

#[global] Instance Value_EqDecision : EqDecision Value := Value_eq_dec.

(** Modelled from the spec: the attribute [type] of a value is set by the
    constructors of [llvalues], which are not part of the sources.  Compare
    instructions have the 1-bit integer type, [alloca] the pointer to the
    allocated type, [load] the pointee of its pointer's type, a cast its
    target type; [store] and the terminators have no result type. *)
Fixpoint type_of (v : Value) : option lltype :=
  match v with
  | Constant typ _ => Some typ
  | Instruction _ typ _ _ _ => typ
  | CastInstr _ _ _ typ _ => Some typ
  | ICMPInstr _ _ _ _ _ => Some (IntType 1)
  | FCMPInstr _ _ _ _ _ => Some (IntType 1)
  | AllocaInstr _ typ _ _ => Some (PointerType typ)
  | LoadInstr _ ptr _ =>
      match type_of ptr with
      | Some (PointerType t) => Some t
      | _ => None
      end
  | StoreInstr _ _ _ => None
  | Terminator _ _ _ => None
  | BlockRef _ => Some LabelType
  end.

(** ** Basic blocks and the store *)

(** Modelled from the spec: the class [Block] of [llvalues] is not part of
    the sources.  A block has a back-reference to its function, an ordered
    sequence of instructions and a terminator slot that is empty until the
    block is closed. *)
Record Block : Type := mkBlock {
  parent : Function;
  instructions : list Value;
  terminator : option Value
}.

(** Modelled from the spec: [Block.is_terminated] holds once the terminator
    slot is filled. *)
Definition is_terminated (b : Block) : bool :=
  match terminator b with Some _ => true | None => false end.

Definition with_instructions (b : Block) (l : list Value) : Block :=
  {| parent := parent b; instructions := l; terminator := terminator b |}.

Definition with_terminator (b : Block) (t : Value) : Block :=
  {| parent := parent b; instructions := instructions b; terminator := Some t |}.

(** The builder object: [self._block] (possibly [None]) and [self._anchor]. *)
Record IRBuilder : Type := mkBuilder {
  _block : option addr;
  _anchor : Z
}.

Record World : Type := mkWorld {
  heap : gmap addr Block;
  self : IRBuilder
}.

(** ** Exceptions and the monad *)

(** [AssertionError] carries the message of the [assert] statement, the empty
    string when the statement has none.  [DanglingReference] cannot be raised
    by the Python program, where a reference always leads to an object; it
    makes the store lookup total. *)
Inductive exn : Type :=
  | AssertionError (msg : string)
  | KeyError (key : string)
  | AttributeError (msg : string)
  | TypeError (msg : string)
  | DanglingReference (a : addr).

(** What evaluating an expression of code that is not part of the sources
    gives: a value, or an exception. *)
Inductive py (A : Type) : Type :=
  | Val (a : A)
  | Exc (e : exn).
Arguments Val {A} a.
Arguments Exc {A} e.

Inductive outcome (A : Type) : Type :=
  | Return (a : A) (w : World)
  | Raise (e : exn) (w : World).
Arguments Return {A} a w.
Arguments Raise {A} e w.

Definition M (A : Type) : Type := World -> outcome A.

#[global] Instance M_ret : MRet M := fun A a w => Return a w.
#[global] Instance M_bind : MBind M := fun A B f m w =>
  match m w with
  | Return a w' => f a w'
  | Raise e w' => Raise e w'
  end.

Definition raise {A} (e : exn) : M A := fun w => Raise e w.

(** The result of such an expression inside a method: its value, or its
    exception raised where the expression stands. *)
Definition eval {A} (r : py A) : M A :=
  match r with
  | Val a => mret a
  | Exc e => raise e
  end.

(** [assert cond, msg] *)
Definition assert (cond : bool) (msg : string) : M unit :=
  if cond then mret tt else raise (AssertionError msg).

Definition get_anchor : M Z := fun w => Return (_anchor (self w)) w.

Definition set_anchor (z : Z) : M unit := fun w =>
  Return tt {| heap := heap w;
               self := {| _block := _block (self w); _anchor := z |} |}.

Definition set_block (b : option addr) : M unit := fun w =>
  Return tt {| heap := heap w;
               self := {| _block := b; _anchor := _anchor (self w) |} |}.

(** Reading the object a reference leads to. *)
Definition deref (a : addr) : M Block := fun w =>
  match heap w !! a with
  | Some b => Return b w
  | None => Raise (DanglingReference a) w
  end.

(** Writing an object back in place. *)
Definition update (a : addr) (b : Block) : M unit := fun w =>
  Return tt {| heap := <[a := b]> (heap w); self := self w |}.

(** [self._block.<attr>]: an attribute access on [None] raises. *)
Definition self_block (attr : string) : M addr := fun w =>
  match _block (self w) with
  | Some a => Return a w
  | None =>
      Raise (AttributeError ("'NoneType' object has no attribute '" +:+ attr +:+ "'")) w
  end.

(** ** Sequences *)

(** [len(l)] *)
Definition len {A} (l : list A) : Z := Z.of_nat (length l).

(** Modelled from the spec: the sequence type of [Block.instructions] is
    declared in [llvalues].  Its [insert] is that of a Python list: a negative
    index counts from the end, and an index outside the list is clamped to
    the nearest end. *)
Definition list_insert_py {A} (i : Z) (x : A) (l : list A) : list A :=
  let i := if i <? 0 then Z.max 0 (i + len l) else Z.min i (len l) in
  take (Z.to_nat i) l ++ x :: drop (Z.to_nat i) l.

(** The method [find] of that sequence type is declared in [llvalues] and is
    not part of the sources: how it compares instructions, what it returns
    for an instruction that is not there and whether it raises are not known.
    It is therefore a parameter of the two methods that call it: a function
    from the instruction and the sequence to an integer or an exception.
    Each call has its own, so that nothing is assumed of how two calls
    relate. *)
Definition finder : Type := Value -> list Value -> py Z.

(** ** The builder *)

(** [IRBuilder.__init__(self, block=None)]: a block object is truthy. *)
Definition init (block : option addr) : M unit :=
  set_block block;;
  match block with
  | Some a => b ← deref a; set_anchor (len (instructions b))
  | None => set_anchor 0
  end.

(** The property [IRBuilder.block]. *)
Definition block : M (option addr) := fun w => Return (_block (self w)) w.

(** The property [IRBuilder.function]: [self.block.parent]. *)
Definition function : M Function :=
  a ← self_block "parent";
  b ← deref a;
  mret (parent b).

Definition position_before (find : finder) (instr : Value) : M unit :=
  a ← self_block "instructions";
  b ← deref a;
  k ← eval (find instr (instructions b));
  set_anchor (Z.max 0 (k - 1)).

Definition position_after (find : finder) (instr : Value) : M unit :=
  a ← self_block "instructions";
  b ← deref a;
  k ← eval (find instr (instructions b));
  set_anchor (Z.min (k + 1) (len (instructions b))).

Definition position_at_start (block : addr) : M unit :=
  set_block (Some block);;
  set_anchor 0.

Definition position_at_end (block : addr) : M unit :=
  set_block (Some block);;
  b ← deref block;
  set_anchor (len (instructions b)).

Definition constant (typ : lltype) (val : Z) : Value := Constant typ val.

Definition _insert (instr : Value) : M unit :=
  a ← self_block "instructions";
  b ← deref a;
  anchor ← get_anchor;
  update a (with_instructions b (list_insert_py anchor instr (instructions b)));;
  anchor ← get_anchor;
  set_anchor (anchor + 1).

Definition _set_terminator (term : Value) : M Value :=
  a ← self_block "is_terminated";
  b ← deref a;
  assert (negb (is_terminated b)) EmptyString;;
  update a (with_terminator b term);;
  mret term.

(** *** Arithmetic *)

(** The decorator [_binop(opname)]: the body of [wrapped]. *)
Definition _binop (opname : string) (lhs rhs : Value) (name : string) : M Value :=
  assert (bool_decide (type_of lhs = type_of rhs)) "Operands must be the same type";;
  f ← function;
  let instr := Instruction f (type_of lhs) opname [lhs; rhs] name in
  _insert instr;;
  mret instr.

Definition add := _binop "add".
Definition sub := _binop "sub".
Definition mul := _binop "mul".
Definition udiv := _binop "udiv".
Definition sdiv := _binop "sdiv".

(** *** Comparisons *)

Definition _CMP_MAP : gmap string string :=
  {[ ">" := "gt"; "<" := "lt"; "==" := "eq"; "!=" := "ne";
     ">=" := "ge"; "<=" := "le" ]}.

(** [d[k]] on a dictionary raises [KeyError] for a missing key. *)
Definition getitem (d : gmap string string) (k : string) : M string :=
  match d !! k with
  | Some v => mret v
  | None => raise (KeyError k)
  end.

Definition icmp_signed (cmpop : string) (lhs rhs : Value) (name : string) : M Value :=
  op ← getitem _CMP_MAP cmpop;
  let op := if bool_decide (cmpop ∉ ["=="; "!="]) then "s" +:+ op else op in
  f ← function;
  let instr := ICMPInstr f op lhs rhs name in
  _insert instr;;
  mret instr.

Definition icmp_unsigned (cmpop : string) (lhs rhs : Value) (name : string) : M Value :=
  op ← getitem _CMP_MAP cmpop;
  let op := if bool_decide (cmpop ∉ ["=="; "!="]) then "u" +:+ op else op in
  f ← function;
  let instr := ICMPInstr f op lhs rhs name in
  _insert instr;;
  mret instr.

Definition fcmp_ordered (cmpop : string) (lhs rhs : Value) (name : string) : M Value :=
  op ← (if bool_decide (is_Some (_CMP_MAP !! cmpop))
        then base ← getitem _CMP_MAP cmpop; mret ("o" +:+ base)
        else mret cmpop);
  f ← function;
  let instr := FCMPInstr f op lhs rhs name in
  _insert instr;;
  mret instr.

Definition fcmp_unordered (cmpop : string) (lhs rhs : Value) (name : string) : M Value :=
  op ← (if bool_decide (is_Some (_CMP_MAP !! cmpop))
        then base ← getitem _CMP_MAP cmpop; mret ("u" +:+ base)
        else mret cmpop);
  f ← function;
  let instr := FCMPInstr f op lhs rhs name in
  _insert instr;;
  mret instr.

(** *** Casts *)

(** The decorator [_castop(opname)]: the body of [wrapped]. *)
Definition _castop (opname : string) (val : Value) (typ : lltype) (name : string)
  : M Value :=
  f ← function;
  let instr := CastInstr f opname val typ name in
  _insert instr;;
  mret instr.

Definition trunc := _castop "trunc".
Definition zext := _castop "zext".
Definition sext := _castop "sext".
Definition fptrunc := _castop "fptrunc".
Definition fpext := _castop "fpext".
Definition bitcast := _castop "bitcast".
Definition fptoui := _castop "fptoui".
Definition uitofp := _castop "uitofp".
Definition fptosi := _castop "fptosi".
Definition sitofp := _castop "sitofp".

(** *** Memory *)

(** The argument [count] of [alloca] is [None], a Python number or a
    [Value].  How a [Value] compares with a number is decided by the class
    [Value] of [llvalues], which is not part of the sources, and by the
    interpreter: Python 2 orders any object after the numbers, Python 3
    raises [TypeError] unless the class defines an ordering.  A [Value]
    passed as count therefore comes with what [count > 0] evaluates to on
    it. *)
Inductive CountArg : Type :=
  | CountNone
  | CountInt (n : Z)
  | CountValue (v : Value) (gt_0 : py bool).

(** [count is None or count > 0]: the comparison is not evaluated for
    [None]. *)
Definition count_check (count : CountArg) : py bool :=
  match count with
  | CountNone => Val true
  | CountInt n => Val (bool_decide (n > 0))
  | CountValue _ gt_0 => gt_0
  end.

Definition alloca (typ : lltype) (count : CountArg) (name : string) : M Value :=
  cond ← eval (count_check count);
  assert cond EmptyString;;
  let count :=
    match count with
    | CountNone => None
    | CountValue v _ => Some v
    | CountInt n => Some (Constant (IntType 32) n)
    end in
  f ← function;
  let al := AllocaInstr f typ count name in
  _insert al;;
  mret al.

Definition load (ptr : Value) (name : string) : M Value :=
  f ← function;
  let ld := LoadInstr f ptr name in
  _insert ld;;
  mret ld.

Definition store (val ptr : Value) : M Value :=
  f ← function;
  let st := StoreInstr f val ptr in
  _insert st;;
  mret st.

(** *** Terminators *)

Definition jump (target : Value) : M Value :=
  f ← function;
  let term := Terminator f "br" [target] in
  _set_terminator term;;
  mret term.

Definition branch (cond truebr falsebr : Value) : M Value :=
  f ← function;
  let term := Terminator f "br" [cond; truebr; falsebr] in
  _set_terminator term;;
  mret term.

Definition ret_void : M Value :=
  f ← function;
  _set_terminator (Terminator f "ret void" []).

Definition ret (value : Value) : M Value :=
  f ← function;
  _set_terminator (Terminator f "ret" [value]).

(** ** Constructor calls as data *)

(** Every instruction constructor of the builder, so that a statement can
    range over "any constructor call". *)
Inductive call : Type :=
  | CallAdd (lhs rhs : Value) (name : string)
  | CallSub (lhs rhs : Value) (name : string)
  | CallMul (lhs rhs : Value) (name : string)
  | CallUdiv (lhs rhs : Value) (name : string)
  | CallSdiv (lhs rhs : Value) (name : string)
  | CallIcmpSigned (cmpop : string) (lhs rhs : Value) (name : string)
  | CallIcmpUnsigned (cmpop : string) (lhs rhs : Value) (name : string)
  | CallFcmpOrdered (cmpop : string) (lhs rhs : Value) (name : string)
  | CallFcmpUnordered (cmpop : string) (lhs rhs : Value) (name : string)
  | CallTrunc (val : Value) (typ : lltype) (name : string)
  | CallZext (val : Value) (typ : lltype) (name : string)
  | CallSext (val : Value) (typ : lltype) (name : string)
  | CallFptrunc (val : Value) (typ : lltype) (name : string)
  | CallFpext (val : Value) (typ : lltype) (name : string)
  | CallBitcast (val : Value) (typ : lltype) (name : string)
  | CallFptoui (val : Value) (typ : lltype) (name : string)
  | CallUitofp (val : Value) (typ : lltype) (name : string)
  | CallFptosi (val : Value) (typ : lltype) (name : string)
  | CallSitofp (val : Value) (typ : lltype) (name : string)
  | CallAlloca (typ : lltype) (count : CountArg) (name : string)
  | CallLoad (ptr : Value) (name : string)
  | CallStore (val ptr : Value).

Definition run (c : call) : M Value :=
  match c with
  | CallAdd lhs rhs name => add lhs rhs name
  | CallSub lhs rhs name => sub lhs rhs name
  | CallMul lhs rhs name => mul lhs rhs name
  | CallUdiv lhs rhs name => udiv lhs rhs name
  | CallSdiv lhs rhs name => sdiv lhs rhs name
  | CallIcmpSigned cmpop lhs rhs name => icmp_signed cmpop lhs rhs name
  | CallIcmpUnsigned cmpop lhs rhs name => icmp_unsigned cmpop lhs rhs name
  | CallFcmpOrdered cmpop lhs rhs name => fcmp_ordered cmpop lhs rhs name
  | CallFcmpUnordered cmpop lhs rhs name => fcmp_unordered cmpop lhs rhs name
  | CallTrunc val typ name => trunc val typ name
  | CallZext val typ name => zext val typ name
  | CallSext val typ name => sext val typ name
  | CallFptrunc val typ name => fptrunc val typ name
  | CallFpext val typ name => fpext val typ name
  | CallBitcast val typ name => bitcast val typ name
  | CallFptoui val typ name => fptoui val typ name
  | CallUitofp val typ name => uitofp val typ name
  | CallFptosi val typ name => fptosi val typ name
  | CallSitofp val typ name => sitofp val typ name
  | CallAlloca typ count name => alloca typ count name
  | CallLoad ptr name => load ptr name
  | CallStore val ptr => store val ptr
  end.

(** What a call checks of its own arguments before it builds anything: the
    [assert] of the arithmetic wrapper and of [alloca], and the dictionary
    lookup of the integer comparisons. *)
Definition accepted (c : call) : bool :=
  match c with
  | CallAdd lhs rhs _ | CallSub lhs rhs _ | CallMul lhs rhs _ | CallUdiv lhs rhs _
  | CallSdiv lhs rhs _ => bool_decide (type_of lhs = type_of rhs)
  | CallIcmpSigned cmpop _ _ _ | CallIcmpUnsigned cmpop _ _ _ =>
      bool_decide (is_Some (_CMP_MAP !! cmpop))
  | CallAlloca _ count _ =>
      match count_check count with Val b => b | Exc _ => false end
  | _ => true
  end.

(** Three constructor calls in a row, after [position_at_end]. *)
Definition three_at_end (b : addr) (c1 c2 c3 : call) : M (Value * Value * Value) :=
  position_at_end b;;
  i1 ← run c1;
  i2 ← run c2;
  i3 ← run c3;
  mret (i1, i2, i3).

(** ** The comparison table as the specification words it *)

(** The six comparison symbols. *)
Definition cmp_symbols : list string := [">"; "<"; "=="; "!="; ">="; "<="].

(** Symbol to base predicate, as tabulated in the specification. *)
Definition spec_base (cmpop : string) : option string :=
  if decide (cmpop = ">") then Some "gt"
  else if decide (cmpop = "<") then Some "lt"
  else if decide (cmpop = "==") then Some "eq"
  else if decide (cmpop = "!=") then Some "ne"
  else if decide (cmpop = ">=") then Some "ge"
  else if decide (cmpop = "<=") then Some "le"
  else None.

(** A base predicate takes the signedness prefix unless it is [eq] or
    [ne]. *)
Definition spec_icmp (prefix base : string) : string :=
  if decide (base = "eq" \/ base = "ne") then base else prefix +:+ base.

(** The float variants always take their prefix. *)
Definition spec_fcmp (prefix base : string) : string := prefix +:+ base.

(** ** States used in the examples *)

Definition i32 : lltype := IntType 32.
Definition i64 : lltype := IntType 64.
Definition one : Value := Constant i32 1.
Definition two : Value := Constant i32 2.
Definition wide : Value := Constant i64 2.

(** A function at address 3 with two blocks: block 7 is empty and open, block
    8 holds three instructions. *)
Definition add12 : Value := Instruction 3%nat (Some i32) "add" [one; two] "a".
Definition mul12 : Value := Instruction 3%nat (Some i32) "mul" [one; two] "m".
Definition sub12 : Value := Instruction 3%nat (Some i32) "sub" [one; two] "s".

Definition entry : Block := mkBlock 3%nat [] None.
Definition body : Block := mkBlock 3%nat [add12; mul12; sub12] None.

Definition store0 : gmap addr Block := {[ 7%nat := entry; 8%nat := body ]}.

(** The builder at the end of the empty block. *)
Definition w_entry : World := {| heap := store0; self := mkBuilder (Some 7%nat) 0 |}.

(** The builder at the end of the block of three. *)
Definition w_body : World := {| heap := store0; self := mkBuilder (Some 8%nat) 3 |}.

(** The builder is positioned in the block [blk] stored at address [a]. *)
Definition at_block (w : World) (a : addr) (blk : Block) : Prop :=
  _block (self w) = Some a /\ heap w !! a = Some blk.

(** The store after [_insert instr] at a valid cursor. *)
Definition inserted (w : World) (a : addr) (blk : Block) (instr : Value) : World :=
  {| heap := <[a := with_instructions blk
                      (list_insert_py (_anchor (self w)) instr (instructions blk))]>
               (heap w);
     self := {| _block := Some a; _anchor := _anchor (self w) + 1 |} |}.

(** The store after [_set_terminator term] on an open block. *)
Definition closed_with (w : World) (a : addr) (blk : Block) (term : Value) : World :=
  {| heap := <[a := with_terminator blk term]> (heap w); self := self w |}.

(** The empty block closed by a jump to block 8. *)
Definition br8 : Value := Terminator 3%nat "br" [BlockRef 8%nat].
Definition entry_closed : Block := mkBlock 3%nat [] (Some br8).
Definition w_closed : World :=
  {| heap := {[ 7%nat := entry_closed; 8%nat := body ]};
     self := mkBuilder (Some 7%nat) 0 |}.

(** An instruction that is in neither block. *)
Definition udiv12 : Value := Instruction 3%nat (Some i32) "udiv" [one; two] "q".

(** ** Runs of builder calls *)

(** Constructor calls made one after the other; the instructions they return,
    in call order. *)
Fixpoint run_all (cs : list call) : M (list Value) :=
  match cs with
  | [] => mret []
  | c :: cs' =>
      i ← run c;
      rest ← run_all cs';
      mret (i :: rest)
  end.

(** Every public method of the builder that acts on the cursor or on a
    block. *)
Inductive method : Type :=
  | MCall (c : call)
  | MJump (target : Value)
  | MBranch (cond truebr falsebr : Value)
  | MRetVoid
  | MRet (value : Value)
  | MPositionBefore (find : finder) (instr : Value)
  | MPositionAfter (find : finder) (instr : Value)
  | MPositionAtStart (block : addr)
  | MPositionAtEnd (block : addr).

(** The store a call leaves behind, whether it returned or raised: the caller
    may catch the exception and go on with the same builder. *)
Definition after {A} (o : outcome A) : World :=
  match o with
  | Return _ w => w
  | Raise _ w => w
  end.

Definition exec (m : method) (w : World) : World :=
  match m with
  | MCall c => after (run c w)
  | MJump target => after (jump target w)
  | MBranch cond truebr falsebr => after (branch cond truebr falsebr w)
  | MRetVoid => after (ret_void w)
  | MRet value => after (ret value w)
  | MPositionBefore find instr => after (position_before find instr w)
  | MPositionAfter find instr => after (position_after find instr w)
  | MPositionAtStart b => after (position_at_start b w)
  | MPositionAtEnd b => after (position_at_end b w)
  end.

Definition exec_all (ms : list method) (w : World) : World :=
  foldl (fun w m => exec m w) w ms.

(** What [find] returns is an index of the sequence it searched or the value
    just below the first index; it may also raise. *)
Definition finds_in_range (find : finder) (instr : Value) : Prop :=
  forall l k, find instr l = Val k -> -1 <= k < len l.

(** The blocks a method is handed exist: a Python reference always leads to an
    object; and the [find] of a positioning call stays in range. *)
Definition method_wf (h : gmap addr Block) (m : method) : Prop :=
  match m with
  | MPositionAtStart b | MPositionAtEnd b => is_Some (h !! b)
  | MPositionBefore find instr | MPositionAfter find instr =>
      finds_in_range find instr
  | _ => True
  end.

(** The cursor is either without block, or in an existing block with its
    anchor between 0 and the length of the block's sequence. *)
Definition cursor_ok (w : World) : Prop :=
  match _block (self w) with
  | None => True
  | Some a =>
      exists blk, heap w !! a = Some blk /\
                  0 <= _anchor (self w) <= len (instructions blk)
  end.

(** The six predicates of an integer comparison, per signedness. *)
Definition signed_predicates : list string :=
  ["sgt"; "slt"; "eq"; "ne"; "sge"; "sle"].
Definition unsigned_predicates : list string :=
  ["ugt"; "ult"; "eq"; "ne"; "uge"; "ule"].

(** A builder that was created without block. *)
Definition w_none : World := {| heap := store0; self := mkBuilder None 0 |}.

(** Two [find]s for the examples: one that returns [k] whatever it is asked,
    and one that finds the instruction at the last index of the sequence. *)
Definition answers (k : Z) : finder := fun _ _ => Val k.
Definition finds_last : finder := fun _ l => Val (len l - 1).

(** [count > 0] on a [Value] under Python 3, when the class defines no
    ordering. *)
Definition unorderable : py bool :=
  Exc (TypeError "'>' not supported between instances of 'Constant' and 'int'").

(** * Properties *)

(** ** The monad, step by step *)

Ltac unfold_M :=
  unfold mbind, M_bind, mret, M_ret, raise, assert, get_anchor, set_anchor,
    set_block, update, deref, self_block in *.

Lemma bind_Return {A B} (m : M A) (k : A -> M B) w a w1 :
  m w = Return a w1 -> (m ≫= k) w = k a w1.
Proof. intros H. unfold mbind, M_bind. now rewrite H. Qed.

Lemma bind_Raise {A B} (m : M A) (k : A -> M B) w e w1 :
  m w = Raise e w1 -> (m ≫= k) w = Raise e w1.
Proof. intros H. unfold mbind, M_bind. now rewrite H. Qed.

Lemma bind_inv_Return {A B} (m : M A) (k : A -> M B) w b w2 :
  (m ≫= k) w = Return b w2 ->
  exists a w1, m w = Return a w1 /\ k a w1 = Return b w2.
Proof.
  unfold mbind, M_bind. destruct (m w) as [a w1|e w1]; [eauto | discriminate].
Qed.

Lemma bind_inv_Raise {A B} (m : M A) (k : A -> M B) w e w2 :
  (m ≫= k) w = Raise e w2 ->
  m w = Raise e w2 \/ exists a w1, m w = Return a w1 /\ k a w1 = Raise e w2.
Proof.
  unfold mbind, M_bind. destruct (m w) as [a w1|e1 w1]; intros H.
  - right. exists a, w1. split; [reflexivity | exact H].
  - left. injection H as -> ->. reflexivity.
Qed.

(** ** The cursor *)

Section Cursor.
Variables (w : World) (a : addr) (blk : Block).
Hypothesis Hat : at_block w a blk.

Lemma function_at : function w = Return (parent blk) w.
Proof.
  destruct Hat as [Hb Hh]. unfold function. unfold_M. now rewrite Hb, Hh.
Qed.

Lemma _insert_at instr : _insert instr w = Return tt (inserted w a blk instr).
Proof.
  destruct Hat as [Hb Hh]. unfold _insert, inserted. unfold_M.
  rewrite Hb, Hh. cbn. now rewrite Hb.
Qed.

Lemma at_block_inserted instr :
  at_block (inserted w a blk instr) a
    (with_instructions blk
       (list_insert_py (_anchor (self w)) instr (instructions blk))).
Proof. split; cbn; [reflexivity | apply lookup_insert_eq]. Qed.
End Cursor.

Lemma function_inv_Return w f w' :
  function w = Return f w' ->
  w' = w /\ exists a blk, at_block w a blk /\ f = parent blk.
Proof.
  unfold function, at_block. unfold_M.
  destruct (_block (self w)) as [a|]; [|discriminate].
  destruct (heap w !! a) as [blk|] eqn:Hh; [|discriminate].
  intros [= <- <-]. eauto 6.
Qed.

Lemma function_inv_Raise w e w' : function w = Raise e w' -> w' = w.
Proof.
  unfold function. unfold_M.
  destruct (_block (self w)) as [a|]; [|congruence].
  destruct (heap w !! a) as [blk|]; congruence.
Qed.

(** The common tail of every constructor: read the function, build the
    instruction, insert it, return it. *)
Lemma emit_at (g : Function -> Value) w a blk :
  at_block w a blk ->
  (f ← function; _insert (g f);; mret (g f)) w
  = Return (g (parent blk)) (inserted w a blk (g (parent blk))).
Proof.
  intros Hat. rewrite (bind_Return _ _ _ _ _ (function_at w a blk Hat)).
  now rewrite (bind_Return _ _ _ _ _ (_insert_at w a blk Hat _)).
Qed.

Lemma emit_inv_Return (g : Function -> Value) w i w' :
  (f ← function; _insert (g f);; mret (g f)) w = Return i w' ->
  exists a blk, at_block w a blk /\ i = g (parent blk) /\ w' = inserted w a blk i.
Proof.
  intros H. apply bind_inv_Return in H as (f & w1 & Hf & H).
  apply function_inv_Return in Hf as (-> & a & blk & Hat & ->).
  rewrite (bind_Return _ _ _ _ _ (_insert_at w a blk Hat _)) in H.
  injection H as <- <-. now exists a, blk.
Qed.

Lemma emit_inv_Raise (g : Function -> Value) w e w' :
  (f ← function; _insert (g f);; mret (g f)) w = Raise e w' -> w' = w.
Proof.
  intros H. apply bind_inv_Raise in H as [H | (f & w1 & Hf & H)].
  - now apply function_inv_Raise in H.
  - apply function_inv_Return in Hf as (-> & a & blk & Hat & ->).
    rewrite (bind_Return _ _ _ _ _ (_insert_at w a blk Hat _)) in H.
    discriminate.
Qed.

(** ** Insertion into a sequence *)

Lemma list_insert_py_in_range {A} (i : Z) (x : A) (l : list A) :
  0 <= i <= len l ->
  list_insert_py i x l = take (Z.to_nat i) l ++ x :: drop (Z.to_nat i) l.
Proof.
  intros Hi. unfold list_insert_py.
  destruct (Z.ltb_spec i 0) as [Hneg|_]; [lia|].
  now rewrite Z.min_l by lia.
Qed.

Lemma list_insert_py_lookup {A} (i : Z) (x : A) (l : list A) :
  0 <= i <= len l -> list_insert_py i x l !! Z.to_nat i = Some x.
Proof.
  intros Hi. rewrite list_insert_py_in_range by exact Hi.
  unfold len in Hi.
  rewrite lookup_app_r by (rewrite length_take; lia).
  rewrite length_take, Nat.min_l by lia.
  now rewrite Nat.sub_diag.
Qed.

Lemma list_insert_py_end {A} (x : A) (l : list A) :
  list_insert_py (len l) x l = l ++ [x].
Proof.
  rewrite list_insert_py_in_range by (unfold len; lia).
  unfold len. rewrite Nat2Z.id.
  now rewrite firstn_all, drop_all.
Qed.

Lemma list_insert_py_length {A} (i : Z) (x : A) (l : list A) :
  length (list_insert_py i x l) = S (length l).
Proof.
  unfold list_insert_py.
  set (j := Z.to_nat _).
  rewrite length_app. cbn. rewrite length_take, length_drop. lia.
Qed.

(** ** Arithmetic constructors *)

Lemma _binop_mismatch opname lhs rhs name w :
  type_of lhs <> type_of rhs ->
  _binop opname lhs rhs name w
  = Raise (AssertionError "Operands must be the same type") w.
Proof.
  intros Hne. unfold _binop.
  rewrite bool_decide_eq_false_2 by exact Hne. reflexivity.
Qed.

Lemma _binop_at opname lhs rhs name w a blk :
  at_block w a blk ->
  type_of lhs = type_of rhs ->
  let instr := Instruction (parent blk) (type_of lhs) opname [lhs; rhs] name in
  _binop opname lhs rhs name w = Return instr (inserted w a blk instr).
Proof.
  intros Hat Heq instr. unfold _binop.
  rewrite bool_decide_eq_true_2 by exact Heq.
  exact (emit_at (fun f => Instruction f (type_of lhs) opname [lhs; rhs] name)
           w a blk Hat).
Qed.

(** C2.  When the types of the two operands differ, each of [add], [sub],
    [mul], [udiv] and [sdiv] raises the assertion error of the operand-type
    check (the failure the specification calls a type mismatch), and the
    store it leaves is the store it was called in: no block has gained or
    lost an instruction and the cursor has not moved. *)
Theorem arithmetic_type_mismatch_raises (lhs rhs : Value) (name : string) (w : World) :
  type_of lhs <> type_of rhs ->
  let failed := Raise (AssertionError "Operands must be the same type") w in
  add lhs rhs name w = failed /\
  sub lhs rhs name w = failed /\
  mul lhs rhs name w = failed /\
  udiv lhs rhs name w = failed /\
  sdiv lhs rhs name w = failed.
Proof.
  intros Hne failed. unfold add, sub, mul, udiv, sdiv, failed.
  repeat split; apply _binop_mismatch; exact Hne.
Qed.

Lemma arithmetic_type_mismatch_raises_witness :
  type_of one <> type_of wide /\
  add one wide "x" w_body
  = Raise (AssertionError "Operands must be the same type") w_body.
Proof.
  assert (Hne : type_of one <> type_of wide) by (cbn; discriminate).
  split; [exact Hne|].
  exact (proj1 (arithmetic_type_mismatch_raises one wide "x" w_body Hne)).
Defined.

(** The store after an insertion, seen through the block it was made in: the
    block's sequence is the old one with the instruction put in at the
    anchor, nothing else of the block and no other block has changed. *)
Lemma inserted_view w a blk i :
  exists blk',
    at_block (inserted w a blk i) a blk' /\
    instructions blk' = list_insert_py (_anchor (self w)) i (instructions blk) /\
    length (instructions blk') = S (length (instructions blk)) /\
    parent blk' = parent blk /\
    terminator blk' = terminator blk /\
    _anchor (self (inserted w a blk i)) = _anchor (self w) + 1 /\
    (forall a', a' <> a -> heap (inserted w a blk i) !! a' = heap w !! a') /\
    (0 <= _anchor (self w) <= len (instructions blk) ->
     instructions blk'
     = take (Z.to_nat (_anchor (self w))) (instructions blk)
       ++ i :: drop (Z.to_nat (_anchor (self w))) (instructions blk) /\
     instructions blk' !! Z.to_nat (_anchor (self w)) = Some i).
Proof.
  eexists. split; [apply at_block_inserted|].
  split; [reflexivity|]. split; [apply list_insert_py_length|].
  split; [reflexivity|]. split; [reflexivity|]. split; [reflexivity|].
  split; [intros a' Hne; cbn; now apply lookup_insert_ne|].
  intros Hin. cbn.
  split; [now apply list_insert_py_in_range | now apply list_insert_py_lookup].
Qed.

(** C3.  With operands of equal types and the builder positioned in a block,
    [add lhs rhs] returns the instruction of opcode [add] whose type is the
    type of [lhs] and whose operands are [lhs; rhs] in that order.  The
    instruction is inserted into the current block at the anchor, which then
    advances by one; no other block changes.  With the anchor inside the
    block, the instruction sits at index [anchor], between the instructions
    that were before the anchor and those that were after it. *)
Theorem add_builds_and_inserts (w : World) (a : addr) (blk : Block)
    (lhs rhs : Value) (name : string) :
  at_block w a blk ->
  type_of lhs = type_of rhs ->
  let instr := Instruction (parent blk) (type_of lhs) "add" [lhs; rhs] name in
  let anchor := _anchor (self w) in
  exists w' blk',
    add lhs rhs name w = Return instr w' /\
    at_block w' a blk' /\
    instructions blk' = list_insert_py anchor instr (instructions blk) /\
    length (instructions blk') = S (length (instructions blk)) /\
    parent blk' = parent blk /\
    terminator blk' = terminator blk /\
    _anchor (self w') = anchor + 1 /\
    (forall a', a' <> a -> heap w' !! a' = heap w !! a') /\
    (0 <= anchor <= len (instructions blk) ->
     instructions blk'
     = take (Z.to_nat anchor) (instructions blk)
       ++ instr :: drop (Z.to_nat anchor) (instructions blk) /\
     instructions blk' !! Z.to_nat anchor = Some instr).
Proof.
  intros Hat Heq instr anchor.
  destruct (inserted_view w a blk instr)
    as (blk' & Hat' & Hi & Hl & Hp & Ht & Ha & Hfr & Hin).
  exists (inserted w a blk instr), blk'.
  split; [exact (_binop_at "add" lhs rhs name w a blk Hat Heq)|].
  repeat (split; [assumption|]). exact Hin.
Qed.

Lemma add_builds_and_inserts_witness :
  at_block w_body 8%nat body /\
  type_of one = type_of two /\
  exists w' blk',
    add one two "x" w_body
    = Return (Instruction 3%nat (Some i32) "add" [one; two] "x") w' /\
    at_block w' 8%nat blk' /\
    instructions blk'
    = [add12; mul12; sub12; Instruction 3%nat (Some i32) "add" [one; two] "x"] /\
    _anchor (self w') = 4.
Proof.
  assert (Hat : at_block w_body 8%nat body) by (split; reflexivity).
  split; [exact Hat|]. split; [reflexivity|].
  destruct (add_builds_and_inserts w_body 8%nat body one two "x" Hat eq_refl)
    as (w' & blk' & Hadd & Hat' & Hi & _ & _ & _ & Ha & _).
  exists w', blk'. split; [exact Hadd|]. split; [exact Hat'|].
  split; [exact Hi | exact Ha].
Defined.

(** ** Every constructor call inserts what it returns, or changes nothing *)

Lemma getitem_Some d k v w : d !! k = Some v -> getitem d k w = Return v w.
Proof. intros H. unfold getitem. now rewrite H. Qed.

Lemma getitem_None d k w : d !! k = None -> getitem d k w = Raise (KeyError k) w.
Proof. intros H. unfold getitem. now rewrite H. Qed.

Lemma run_cases (c : call) (w : World) :
  (accepted c = true /\
   exists g : Function -> Value,
     run c w = (f ← function; _insert (g f);; mret (g f)) w) \/
  (accepted c = false /\ exists e, run c w = Raise e w).
Proof.
  destruct c; cbn [run accepted];
    unfold add, sub, mul, udiv, sdiv, _binop, icmp_signed, icmp_unsigned,
      fcmp_ordered, fcmp_unordered, trunc, zext, sext, fptrunc, fpext, bitcast,
      fptoui, uitofp, fptosi, sitofp, _castop, alloca, load, store.
  all: try (left; split; [reflexivity | eexists (fun f => _); reflexivity]).
  all: try (destruct (bool_decide (type_of lhs = type_of rhs));
            [ left; split; [reflexivity | eexists (fun f => _); reflexivity]
            | right; split; [reflexivity | eexists; reflexivity] ]).
  all: try (destruct (count_check count) as [[|]|e];
            [ left; split; [reflexivity | eexists (fun f => _); reflexivity]
            | right; split; [reflexivity | eexists; reflexivity]
            | right; split; [reflexivity | eexists; reflexivity] ]).
  all: try (unfold getitem, mbind, M_bind, mret, M_ret, raise;
            destruct (_CMP_MAP !! cmpop) eqn:Hget;
            [ rewrite bool_decide_eq_true_2 by eauto
            | rewrite bool_decide_eq_false_2 by (intros [? ?]; discriminate) ];
            [ left; split; [reflexivity | eexists (fun f => _); reflexivity]
            | right; split; [reflexivity | eexists; reflexivity] ]).
  all: unfold getitem, mbind, M_bind, mret, M_ret, raise.
  all: destruct (_CMP_MAP !! cmpop) eqn:Hget.
  all: try rewrite bool_decide_eq_true_2 by eauto.
  all: try rewrite bool_decide_eq_false_2 by (intros [? ?]; discriminate).
  all: left; split; [reflexivity | eexists (fun f => _); reflexivity].
Qed.

Lemma run_accepted_at (c : call) w a blk :
  at_block w a blk ->
  accepted c = true ->
  exists i, run c w = Return i (inserted w a blk i).
Proof.
  intros Hat Hacc.
  destruct (run_cases c w) as [(_ & g & ->) | (Hrej & _)]; [|congruence].
  exists (g (parent blk)). now apply emit_at.
Qed.

Lemma run_inv_Return (c : call) w i w' :
  run c w = Return i w' ->
  accepted c = true /\ exists a blk, at_block w a blk /\ w' = inserted w a blk i.
Proof.
  intros H.
  destruct (run_cases c w) as [(Hacc & g & Hrun) | (_ & e & Hrun)];
    rewrite Hrun in H; [|discriminate].
  split; [exact Hacc|].
  apply emit_inv_Return in H as (a & blk & Hat & _ & ->). eauto.
Qed.

Lemma run_inv_Raise (c : call) w e w' : run c w = Raise e w' -> w' = w.
Proof.
  intros H.
  destruct (run_cases c w) as [(_ & g & Hrun) | (_ & e' & Hrun)];
    rewrite Hrun in H.
  - now apply emit_inv_Raise in H.
  - congruence.
Qed.

(** ** The terminator does not close the block to instructions *)

(** C1, as the code has it.  A terminator in the current block does not make
    an instruction constructor fail.  Every constructor call whose own
    argument checks pass (for [add]: operands of equal types) returns a new
    instruction, inserts it into the instruction sequence of the terminated
    block, which grows by one, and leaves the terminator in place. *)
Theorem constructor_on_terminated_block (c : call) (w : World) (a : addr)
    (blk : Block) (term : Value) :
  at_block w a blk ->
  terminator blk = Some term ->
  accepted c = true ->
  exists i w' blk',
    run c w = Return i w' /\
    heap w' !! a = Some blk' /\
    instructions blk' = list_insert_py (_anchor (self w)) i (instructions blk) /\
    length (instructions blk') = S (length (instructions blk)) /\
    terminator blk' = Some term.
Proof.
  intros Hat Hterm Hacc.
  destruct (run_accepted_at c w a blk Hat Hacc) as [i Hrun].
  exists i, (inserted w a blk i), (with_instructions blk
    (list_insert_py (_anchor (self w)) i (instructions blk))).
  split; [exact Hrun|]. split; [apply lookup_insert_eq|].
  split; [reflexivity|]. split; [apply list_insert_py_length | exact Hterm].
Qed.

Lemma constructor_on_terminated_block_witness :
  at_block w_closed 7%nat entry_closed /\
  terminator entry_closed = Some br8 /\
  accepted (CallAdd one two "x") = true /\
  exists i w' blk',
    run (CallAdd one two "x") w_closed = Return i w' /\
    heap w' !! 7%nat = Some blk' /\
    instructions blk' = list_insert_py 0 i [] /\
    length (instructions blk') = 1%nat /\
    terminator blk' = Some br8.
Proof.
  assert (Hat : at_block w_closed 7%nat entry_closed) by (split; reflexivity).
  split; [exact Hat|]. split; [reflexivity|]. split; [reflexivity|].
  exact (constructor_on_terminated_block (CallAdd one two "x") w_closed 7%nat
           entry_closed br8 Hat eq_refl eq_refl).
Defined.

(** C1 fails as stated: [jump] closes the empty block 7, and the [add] that
    follows does not raise; it returns its instruction, and the instruction
    sequence of the closed block goes from empty to that one instruction. *)
Lemma add_after_jump_is_inserted :
  jump (BlockRef 8%nat) w_entry = Return br8 w_closed /\
  instructions entry_closed = [] /\
  add one two "x" w_closed
  = Return (Instruction 3%nat (Some i32) "add" [one; two] "x")
      {| heap := {[ 7%nat := mkBlock 3%nat
                               [Instruction 3%nat (Some i32) "add" [one; two] "x"]
                               (Some br8);
                    8%nat := body ]};
         self := mkBuilder (Some 7%nat) 1 |}.
Proof. repeat split; vm_compute; reflexivity. Qed.

(** ** Terminators *)

Lemma _set_terminator_closed w a blk term :
  at_block w a blk ->
  is_terminated blk = true ->
  _set_terminator term w = Raise (AssertionError EmptyString) w.
Proof.
  intros [Hb Hh] Ht. unfold _set_terminator. unfold_M.
  now rewrite Hb, Hh, Ht.
Qed.

Lemma _set_terminator_open w a blk term :
  at_block w a blk ->
  is_terminated blk = false ->
  _set_terminator term w = Return term (closed_with w a blk term).
Proof.
  intros [Hb Hh] Ht. unfold _set_terminator. unfold_M.
  now rewrite Hb, Hh, Ht.
Qed.

Lemma closed_with_lookup w a blk term :
  heap (closed_with w a blk term) !! a = Some (with_terminator blk term).
Proof. apply lookup_insert_eq. Qed.

(** C7.  On a block whose terminator is set, each of [jump], [branch],
    [ret_void] and [ret] raises the assertion error of [_set_terminator] (the
    failure the specification calls already terminated) and leaves the store
    as it was, so the block keeps its terminator and its instructions.  On a
    block without terminator each builds its terminator, stores it in the
    terminator slot of the block, leaving the instruction sequence and the
    cursor alone, and returns it. *)
Theorem terminators_set_once (w : World) (a : addr) (blk : Block)
    (target cond truebr falsebr value : Value) :
  at_block w a blk ->
  let f := parent blk in
  (is_terminated blk = true ->
     let failed := Raise (AssertionError EmptyString) w in
     jump target w = failed /\
     branch cond truebr falsebr w = failed /\
     ret_void w = failed /\
     ret value w = failed) /\
  (is_terminated blk = false ->
     let set (term : Value) := Return term (closed_with w a blk term) in
     jump target w = set (Terminator f "br" [target]) /\
     branch cond truebr falsebr w = set (Terminator f "br" [cond; truebr; falsebr]) /\
     ret_void w = set (Terminator f "ret void" []) /\
     ret value w = set (Terminator f "ret" [value]) /\
     forall term,
       exists blk',
         heap (closed_with w a blk term) !! a = Some blk' /\
         terminator blk' = Some term /\
         instructions blk' = instructions blk /\
         self (closed_with w a blk term) = self w).
Proof.
  intros Hat f. split; intros Ht.
  - unfold jump, branch, ret_void, ret.
    repeat split;
      rewrite (bind_Return _ _ _ _ _ (function_at w a blk Hat)); cbv zeta;
      try (apply _set_terminator_closed with a blk; assumption);
      now rewrite (bind_Raise _ _ _ _ _
                     (_set_terminator_closed w a blk _ Hat Ht)).
  - unfold jump, branch, ret_void, ret.
    repeat split;
      try (rewrite (bind_Return _ _ _ _ _ (function_at w a blk Hat)); cbv zeta;
           try (apply _set_terminator_open; assumption);
           now rewrite (bind_Return _ _ _ _ _
                          (_set_terminator_open w a blk _ Hat Ht))).
    intros term. exists (with_terminator blk term).
    split; [apply closed_with_lookup|]. repeat split.
Qed.

Lemma terminators_set_once_witness :
  (at_block w_closed 7%nat entry_closed /\
   is_terminated entry_closed = true /\
   jump (BlockRef 8%nat) w_closed = Raise (AssertionError EmptyString) w_closed) /\
  (at_block w_entry 7%nat entry /\
   is_terminated entry = false /\
   jump (BlockRef 8%nat) w_entry
   = Return br8 (closed_with w_entry 7%nat entry br8)).
Proof.
  assert (Hc : at_block w_closed 7%nat entry_closed) by (split; reflexivity).
  assert (Ho : at_block w_entry 7%nat entry) by (split; reflexivity).
  split.
  - split; [exact Hc|]. split; [reflexivity|].
    exact (proj1 (proj1 (terminators_set_once w_closed 7%nat entry_closed
                           (BlockRef 8%nat) one one one one Hc) eq_refl)).
  - split; [exact Ho|]. split; [reflexivity|].
    exact (proj1 (proj2 (terminators_set_once w_entry 7%nat entry
                           (BlockRef 8%nat) one one one one Ho) eq_refl)).
Defined.

(** ** Memory: the count of [alloca] *)

(** C9.  [alloca] with a positive Python integer [n] as count builds its
    instruction with the constant [n] of the 32-bit integer type as count,
    and with no count it builds it with an absent count; the instruction is
    inserted at the cursor and returned.  A count that is zero or negative
    raises the assertion error of the count check (the failure the
    specification calls an invalid argument) and changes nothing.  A [Value]
    passed as count goes through the same check [count > 0] before the
    branch that would keep it: it is stored as given when that comparison
    holds for it; when the comparison is false the assertion fails, and when
    the comparison itself raises, as Python 3 does for a class without
    ordering, [alloca] raises that exception, in both cases before anything
    is built. *)
Theorem alloca_count (w : World) (a : addr) (blk : Block) (typ : lltype)
    (name : string) :
  at_block w a blk ->
  let f := parent blk in
  let built (count : option Value) :=
    Return (AllocaInstr f typ count name)
      (inserted w a blk (AllocaInstr f typ count name)) in
  (forall n, n > 0 ->
     alloca typ (CountInt n) name w = built (Some (Constant (IntType 32) n))) /\
  alloca typ CountNone name w = built None /\
  (forall n, n <= 0 ->
     alloca typ (CountInt n) name w = Raise (AssertionError EmptyString) w) /\
  (forall v, alloca typ (CountValue v (Val true)) name w = built (Some v)) /\
  (forall v,
     alloca typ (CountValue v (Val false)) name w
     = Raise (AssertionError EmptyString) w) /\
  (forall v e, alloca typ (CountValue v (Exc e)) name w = Raise e w) /\
  (forall count,
     exists blk',
       at_block (inserted w a blk (AllocaInstr f typ count name)) a blk' /\
       instructions blk'
       = list_insert_py (_anchor (self w)) (AllocaInstr f typ count name)
           (instructions blk)).
Proof.
  intros Hat f built. unfold alloca. repeat split.
  - intros n Hn. cbn [count_check eval].
    rewrite bool_decide_eq_true_2 by exact Hn.
    exact (emit_at (fun f => AllocaInstr f typ _ name) w a blk Hat).
  - exact (emit_at (fun f => AllocaInstr f typ _ name) w a blk Hat).
  - intros n Hn. cbn [count_check eval].
    rewrite bool_decide_eq_false_2 by lia. reflexivity.
  - intros v. exact (emit_at (fun f => AllocaInstr f typ _ name) w a blk Hat).
  - intros count.
    destruct (inserted_view w a blk (AllocaInstr f typ count name))
      as (blk' & Hat' & Hi & _).
    now exists blk'.
Qed.

Lemma alloca_count_witness :
  at_block w_body 8%nat body /\
  5 > 0 /\
  alloca i32 (CountInt 5) "p" w_body
  = Return (AllocaInstr 3%nat i32 (Some (Constant (IntType 32) 5)) "p")
      (inserted w_body 8%nat body
         (AllocaInstr 3%nat i32 (Some (Constant (IntType 32) 5)) "p")) /\
  0 <= 0 /\
  alloca i32 (CountInt 0) "p" w_body = Raise (AssertionError EmptyString) w_body /\
  alloca i32 (CountValue one unorderable) "p" w_body
  = Raise (TypeError "'>' not supported between instances of 'Constant' and 'int'")
      w_body /\
  alloca i32 (CountValue one (Val true)) "p" w_body
  = Return (AllocaInstr 3%nat i32 (Some one) "p")
      (inserted w_body 8%nat body (AllocaInstr 3%nat i32 (Some one) "p")).
Proof.
  assert (Hat : at_block w_body 8%nat body) by (split; reflexivity).
  pose proof (alloca_count w_body 8%nat body i32 "p" Hat)
    as (Hpos & _ & Hneg & Hval & _ & Hexc & _).
  split; [exact Hat|]. split; [lia|].
  split; [exact (Hpos 5 ltac:(lia))|]. split; [lia|].
  split; [exact (Hneg 0 ltac:(lia))|].
  split; [exact (Hexc one _) | exact (Hval one)].
Defined.

(** ** Comparisons *)

(** The dictionary of the source and the table of the specification agree on
    every string. *)
Lemma _CMP_MAP_lookup (cmpop : string) : _CMP_MAP !! cmpop = spec_base cmpop.
Proof.
  unfold _CMP_MAP, spec_base.
  repeat (case_decide; [subst; vm_compute; reflexivity|]).
  repeat (rewrite lookup_insert_ne by congruence).
  apply lookup_singleton_ne. congruence.
Qed.

Lemma spec_base_symbols (cmpop : string) :
  cmpop ∈ cmp_symbols <-> is_Some (spec_base cmpop).
Proof.
  unfold cmp_symbols, spec_base. split.
  - intros H. repeat (apply elem_of_cons in H as [-> | H]; [now eexists|]).
    now apply elem_of_nil in H.
  - intros [base H].
    repeat (case_decide; [subst; set_solver|]). discriminate.
Qed.

Lemma _CMP_MAP_None (cmpop : string) :
  cmpop ∉ cmp_symbols -> _CMP_MAP !! cmpop = None.
Proof.
  intros Hnot. rewrite _CMP_MAP_lookup.
  destruct (spec_base cmpop) eqn:Hb; [|reflexivity].
  exfalso. apply Hnot, spec_base_symbols. now rewrite Hb.
Qed.

(** On the six symbols, "the symbol is not [==] or [!=]" (the test of the
    source) and "the base is not [eq] or [ne]" (the words of the
    specification) select the same predicates. *)
Lemma icmp_prefix_agrees (prefix cmpop base : string) :
  spec_base cmpop = Some base ->
  (if bool_decide (cmpop ∉ ["=="; "!="]) then prefix +:+ base else base)
  = spec_icmp prefix base.
Proof.
  unfold spec_base.
  repeat (case_decide; [subst; intros [= <-]; reflexivity|]).
  discriminate.
Qed.

Section Comparisons.
Variables (w : World) (a : addr) (blk : Block).
Variables (lhs rhs : Value) (name : string).
Hypothesis Hat : at_block w a blk.

Lemma icmp_signed_at cmpop base :
  spec_base cmpop = Some base ->
  icmp_signed cmpop lhs rhs name w
  = Return (ICMPInstr (parent blk) (spec_icmp "s" base) lhs rhs name)
      (inserted w a blk (ICMPInstr (parent blk) (spec_icmp "s" base) lhs rhs name)).
Proof.
  intros Hb. unfold icmp_signed.
  rewrite (bind_Return _ _ _ _ _ (getitem_Some _CMP_MAP cmpop base w
             (eq_trans (_CMP_MAP_lookup cmpop) Hb))).
  cbv zeta. rewrite (icmp_prefix_agrees "s" cmpop base Hb).
  exact (emit_at (fun f => ICMPInstr f _ lhs rhs name) w a blk Hat).
Qed.

Lemma icmp_unsigned_at cmpop base :
  spec_base cmpop = Some base ->
  icmp_unsigned cmpop lhs rhs name w
  = Return (ICMPInstr (parent blk) (spec_icmp "u" base) lhs rhs name)
      (inserted w a blk (ICMPInstr (parent blk) (spec_icmp "u" base) lhs rhs name)).
Proof.
  intros Hb. unfold icmp_unsigned.
  rewrite (bind_Return _ _ _ _ _ (getitem_Some _CMP_MAP cmpop base w
             (eq_trans (_CMP_MAP_lookup cmpop) Hb))).
  cbv zeta. rewrite (icmp_prefix_agrees "u" cmpop base Hb).
  exact (emit_at (fun f => ICMPInstr f _ lhs rhs name) w a blk Hat).
Qed.

Lemma fcmp_op_known prefix cmpop base :
  spec_base cmpop = Some base ->
  (if bool_decide (is_Some (_CMP_MAP !! cmpop))
   then base ← getitem _CMP_MAP cmpop; mret (prefix +:+ base)
   else mret cmpop) w
  = Return (spec_fcmp prefix base) w.
Proof.
  intros Hb. rewrite <- _CMP_MAP_lookup in Hb.
  rewrite bool_decide_eq_true_2 by (now exists base).
  now rewrite (bind_Return _ _ _ _ _ (getitem_Some _ _ _ w Hb)).
Qed.

Lemma fcmp_op_unknown prefix cmpop :
  cmpop ∉ cmp_symbols ->
  (if bool_decide (is_Some (_CMP_MAP !! cmpop))
   then base ← getitem _CMP_MAP cmpop; mret (prefix +:+ base)
   else mret cmpop) w
  = Return cmpop w.
Proof.
  intros Hnot. rewrite (_CMP_MAP_None cmpop Hnot).
  now rewrite bool_decide_eq_false_2 by (intros [? ?]; discriminate).
Qed.

Lemma fcmp_ordered_at cmpop base :
  spec_base cmpop = Some base ->
  fcmp_ordered cmpop lhs rhs name w
  = Return (FCMPInstr (parent blk) (spec_fcmp "o" base) lhs rhs name)
      (inserted w a blk (FCMPInstr (parent blk) (spec_fcmp "o" base) lhs rhs name)).
Proof.
  intros Hb. unfold fcmp_ordered.
  rewrite (bind_Return _ _ _ _ _ (fcmp_op_known "o" cmpop base Hb)).
  exact (emit_at (fun f => FCMPInstr f _ lhs rhs name) w a blk Hat).
Qed.

Lemma fcmp_unordered_at cmpop base :
  spec_base cmpop = Some base ->
  fcmp_unordered cmpop lhs rhs name w
  = Return (FCMPInstr (parent blk) (spec_fcmp "u" base) lhs rhs name)
      (inserted w a blk (FCMPInstr (parent blk) (spec_fcmp "u" base) lhs rhs name)).
Proof.
  intros Hb. unfold fcmp_unordered.
  rewrite (bind_Return _ _ _ _ _ (fcmp_op_known "u" cmpop base Hb)).
  exact (emit_at (fun f => FCMPInstr f _ lhs rhs name) w a blk Hat).
Qed.

Lemma fcmp_ordered_raw cmpop :
  cmpop ∉ cmp_symbols ->
  fcmp_ordered cmpop lhs rhs name w = Return (FCMPInstr (parent blk) cmpop lhs rhs name)
      (inserted w a blk (FCMPInstr (parent blk) cmpop lhs rhs name)).
Proof.
  intros Hnot. unfold fcmp_ordered.
  rewrite (bind_Return _ _ _ _ _ (fcmp_op_unknown "o" cmpop Hnot)).
  exact (emit_at (fun f => FCMPInstr f _ lhs rhs name) w a blk Hat).
Qed.

Lemma fcmp_unordered_raw cmpop :
  cmpop ∉ cmp_symbols ->
  fcmp_unordered cmpop lhs rhs name w = Return (FCMPInstr (parent blk) cmpop lhs rhs name)
      (inserted w a blk (FCMPInstr (parent blk) cmpop lhs rhs name)).
Proof.
  intros Hnot. unfold fcmp_unordered.
  rewrite (bind_Return _ _ _ _ _ (fcmp_op_unknown "u" cmpop Hnot)).
  exact (emit_at (fun f => FCMPInstr f _ lhs rhs name) w a blk Hat).
Qed.
End Comparisons.

(** C4.  On each of the six comparison symbols the four comparison
    constructors build their instruction with the predicate of the table:
    [icmp_signed] puts [s] before the base predicate unless the base is [eq]
    or [ne], [icmp_unsigned] puts [u] likewise, [fcmp_ordered] puts [o] and
    [fcmp_unordered] puts [u].  On any other string the two float variants
    use the string itself as predicate.  In particular signed [<] is [slt],
    signed [==] is [eq], unsigned [>=] is [uge], ordered [!=] is [one] and
    unordered [<=] is [ule]. *)
Theorem comparison_predicates (w : World) (a : addr) (blk : Block)
    (lhs rhs : Value) (name : string) :
  at_block w a blk ->
  let f := parent blk in
  let icmp (op : string) :=
    Return (ICMPInstr f op lhs rhs name)
      (inserted w a blk (ICMPInstr f op lhs rhs name)) in
  let fcmp (op : string) :=
    Return (FCMPInstr f op lhs rhs name)
      (inserted w a blk (FCMPInstr f op lhs rhs name)) in
  (forall cmpop, cmpop ∈ cmp_symbols ->
     exists base,
       spec_base cmpop = Some base /\
       icmp_signed cmpop lhs rhs name w = icmp (spec_icmp "s" base) /\
       icmp_unsigned cmpop lhs rhs name w = icmp (spec_icmp "u" base) /\
       fcmp_ordered cmpop lhs rhs name w = fcmp (spec_fcmp "o" base) /\
       fcmp_unordered cmpop lhs rhs name w = fcmp (spec_fcmp "u" base)) /\
  (forall cmpop, cmpop ∉ cmp_symbols ->
     fcmp_ordered cmpop lhs rhs name w = fcmp cmpop /\
     fcmp_unordered cmpop lhs rhs name w = fcmp cmpop) /\
  icmp_signed "<" lhs rhs name w = icmp "slt" /\
  icmp_signed "==" lhs rhs name w = icmp "eq" /\
  icmp_unsigned ">=" lhs rhs name w = icmp "uge" /\
  fcmp_ordered "!=" lhs rhs name w = fcmp "one" /\
  fcmp_unordered "<=" lhs rhs name w = fcmp "ule".
Proof.
  intros Hat f icmp fcmp. split; [|split].
  - intros cmpop Hin. apply spec_base_symbols in Hin as [base Hb].
    exists base. split; [exact Hb|].
    split; [now apply icmp_signed_at|]. split; [now apply icmp_unsigned_at|].
    split; [now apply fcmp_ordered_at | now apply fcmp_unordered_at].
  - intros cmpop Hnot.
    split; [now apply fcmp_ordered_raw | now apply fcmp_unordered_raw].
  - split; [exact (icmp_signed_at w a blk lhs rhs name Hat "<" "lt" eq_refl)|].
    split; [exact (icmp_signed_at w a blk lhs rhs name Hat "==" "eq" eq_refl)|].
    split; [exact (icmp_unsigned_at w a blk lhs rhs name Hat ">=" "ge" eq_refl)|].
    split; [exact (fcmp_ordered_at w a blk lhs rhs name Hat "!=" "ne" eq_refl)|].
    exact (fcmp_unordered_at w a blk lhs rhs name Hat "<=" "le" eq_refl).
Qed.

Lemma comparison_predicates_witness :
  at_block w_body 8%nat body /\
  icmp_signed "<" one two "c" w_body
  = Return (ICMPInstr 3%nat "slt" one two "c")
      (inserted w_body 8%nat body (ICMPInstr 3%nat "slt" one two "c")) /\
  fcmp_ordered "!=" one two "c" w_body
  = Return (FCMPInstr 3%nat "one" one two "c")
      (inserted w_body 8%nat body (FCMPInstr 3%nat "one" one two "c")).
Proof.
  assert (Hat : at_block w_body 8%nat body) by (split; reflexivity).
  pose proof (comparison_predicates w_body 8%nat body one two "c" Hat)
    as (_ & _ & Hslt & _ & _ & Hone & _).
  split; [exact Hat|]. split; [exact Hslt | exact Hone].
Defined.

(** C10.  On a string that is not one of the six comparison symbols,
    [icmp_signed] and [icmp_unsigned] raise the [KeyError] of the dictionary
    lookup and leave the store as it was: nothing is inserted.  The float
    variants, positioned in a block, take the same string as the predicate
    of the instruction they insert. *)
Theorem icmp_unknown_symbol_raises (cmpop : string) (lhs rhs : Value)
    (name : string) (w : World) :
  cmpop ∉ cmp_symbols ->
  icmp_signed cmpop lhs rhs name w = Raise (KeyError cmpop) w /\
  icmp_unsigned cmpop lhs rhs name w = Raise (KeyError cmpop) w /\
  (forall a blk, at_block w a blk ->
     let i := FCMPInstr (parent blk) cmpop lhs rhs name in
     fcmp_ordered cmpop lhs rhs name w = Return i (inserted w a blk i) /\
     fcmp_unordered cmpop lhs rhs name w = Return i (inserted w a blk i)).
Proof.
  intros Hnot. pose proof (_CMP_MAP_None cmpop Hnot) as Hnone.
  split; [|split].
  - unfold icmp_signed.
    now rewrite (bind_Raise _ _ _ _ _ (getitem_None _ _ w Hnone)).
  - unfold icmp_unsigned.
    now rewrite (bind_Raise _ _ _ _ _ (getitem_None _ _ w Hnone)).
  - intros a blk Hat i.
    split; [now apply fcmp_ordered_raw | now apply fcmp_unordered_raw].
Qed.

Lemma icmp_unknown_symbol_raises_witness :
("ult" ∉ cmp_symbols) /\
  icmp_signed "ult" one two "c" w_body = Raise (KeyError "ult") w_body /\
  icmp_unsigned "ult" one two "c" w_body = Raise (KeyError "ult") w_body.
Proof.
  assert (Hnot : "ult" ∉ cmp_symbols).
  { intros Hin. apply spec_base_symbols in Hin as [base Hb]. discriminate Hb. }
  pose proof (icmp_unknown_symbol_raises "ult" one two "c" w_body Hnot)
    as (Hs & Hu & _).
  split; [exact Hnot|]. split; [exact Hs | exact Hu].
Defined.

(** ** Positioning relative to an instruction *)

Lemma position_before_at find w a blk instr k :
  at_block w a blk ->
  find instr (instructions blk) = Val k ->
  position_before find instr w
  = Return tt {| heap := heap w;
                 self := {| _block := Some a; _anchor := Z.max 0 (k - 1) |} |}.
Proof.
  intros [Hb Hh] Hk. unfold position_before. unfold_M.
  rewrite Hb, Hh, Hk. cbn. now rewrite Hb.
Qed.

Lemma position_after_at find w a blk instr k :
  at_block w a blk ->
  find instr (instructions blk) = Val k ->
  position_after find instr w
  = Return tt {| heap := heap w;
                 self := {| _block := Some a;
                            _anchor := Z.min (k + 1) (len (instructions blk)) |} |}.
Proof.
  intros [Hb Hh] Hk. unfold position_after. unfold_M.
  rewrite Hb, Hh, Hk. cbn. now rewrite Hb.
Qed.

Lemma position_before_find_raises find w a blk instr e :
  at_block w a blk ->
  find instr (instructions blk) = Exc e ->
  position_before find instr w = Raise e w.
Proof.
  intros [Hb Hh] Hk. unfold position_before. unfold_M. now rewrite Hb, Hh, Hk.
Qed.

Lemma position_after_find_raises find w a blk instr e :
  at_block w a blk ->
  find instr (instructions blk) = Exc e ->
  position_after find instr w = Raise e w.
Proof.
  intros [Hb Hh] Hk. unfold position_after. unfold_M. now rewrite Hb, Hh, Hk.
Qed.

(** Whatever [find] does, the two methods leave the store and the cursor's
    block alone: only the anchor can change. *)
Lemma position_before_keeps_block find instr w :
  heap (after (position_before find instr w)) = heap w /\
  _block (self (after (position_before find instr w))) = _block (self w).
Proof.
  unfold position_before. unfold_M.
  destruct (_block (self w)) as [a|] eqn:Hb; cbn; [|now rewrite Hb].
  destruct (heap w !! a) as [blk|]; cbn; [|now rewrite Hb].
  destruct (find instr (instructions blk)); cbn; rewrite ?Hb; auto.
Qed.

Lemma position_after_keeps_block find instr w :
  heap (after (position_after find instr w)) = heap w /\
  _block (self (after (position_after find instr w))) = _block (self w).
Proof.
  unfold position_after. unfold_M.
  destruct (_block (self w)) as [a|] eqn:Hb; cbn; [|now rewrite Hb].
  destruct (heap w !! a) as [blk|]; cbn; [|now rewrite Hb].
  destruct (find instr (instructions blk)); cbn; rewrite ?Hb; auto.
Qed.

(** C5, as the code has it.  [position_before] and [position_after] search
    the sequence of the block the cursor is already in and never assign the
    cursor's block: whatever [find] returns or raises, the cursor stays in
    that block and the store is as it was.  When [find] returns the index [k]
    for the instruction, [position_before] sets the anchor to
    [max 0 (k - 1)] and [position_after] sets it to
    [min (k + 1) (len instructions)], the length being that of the cursor's
    block. *)
Theorem position_in_cursor_block (find : finder) (w : World) (a : addr)
    (blk : Block) (instr : Value) :
  at_block w a blk ->
  let moved (anchor : Z) :=
    Return tt {| heap := heap w;
                 self := {| _block := Some a; _anchor := anchor |} |} in
  (forall k, find instr (instructions blk) = Val k ->
     position_before find instr w = moved (Z.max 0 (k - 1)) /\
     position_after find instr w
     = moved (Z.min (k + 1) (len (instructions blk)))) /\
  _block (self (after (position_before find instr w))) = Some a /\
  _block (self (after (position_after find instr w))) = Some a /\
  heap (after (position_before find instr w)) = heap w /\
  heap (after (position_after find instr w)) = heap w.
Proof.
  intros Hat moved. split.
  - intros k Hk. split.
    + now apply position_before_at with blk.
    + now apply position_after_at.
  - destruct (position_before_keeps_block find instr w) as [Hh1 Hb1].
    destruct (position_after_keeps_block find instr w) as [Hh2 Hb2].
    destruct Hat as [Hb _]. rewrite Hb1, Hb2, Hb. now repeat split.
Qed.

Lemma position_in_cursor_block_witness :
  at_block w_body 8%nat body /\
  instructions body !! 2%nat = Some sub12 /\
  position_before (answers 2) sub12 w_body
  = Return tt {| heap := heap w_body; self := mkBuilder (Some 8%nat) 1 |} /\
  position_after (answers 2) sub12 w_body
  = Return tt {| heap := heap w_body; self := mkBuilder (Some 8%nat) 3 |}.
Proof.
  assert (Hat : at_block w_body 8%nat body) by (split; reflexivity).
  split; [exact Hat|]. split; [reflexivity|].
  exact (proj1 (position_in_cursor_block (answers 2) w_body 8%nat body sub12 Hat)
           2 eq_refl).
Defined.

(** C5 fails as stated: [sub12] belongs to block 8, at index 2, while the
    cursor is in block 7.  Whatever [find] returns or raises, the cursor is
    still in block 7 after [position_before sub12] and after
    [position_after sub12]: neither moves it to block 8. *)
Lemma position_keeps_cursor_block :
  heap w_entry !! 8%nat = Some body /\
  instructions body !! 2%nat = Some sub12 /\
  _block (self w_entry) = Some 7%nat /\
  (forall find : finder,
     _block (self (after (position_before find sub12 w_entry))) = Some 7%nat /\
     _block (self (after (position_after find sub12 w_entry))) = Some 7%nat).
Proof.
  split; [reflexivity|]. split; [reflexivity|]. split; [reflexivity|].
  intros find. split.
  - apply position_before_keeps_block.
  - apply position_after_keeps_block.
Qed.

(** C6, as the code has it.  [position_before] and [position_after] hold no
    check of their own for an instruction that is not in the cursor's block
    and raise no error of their own.  Whatever integer [k] the sequence's
    [find] returns for such an instruction (the specification says it returns
    a not-found sentinel), both return normally, keep the cursor's block and
    the store, and set the anchor to [max 0 (k - 1)] and
    [min (k + 1) (len instructions)]; they raise only when [find] itself
    raises, with its exception and nothing changed. *)
Theorem position_of_absent_instruction (find : finder) (w : World) (a : addr)
    (blk : Block) (instr : Value) :
  at_block w a blk ->
  instr ∉ instructions blk ->
  let moved (anchor : Z) :=
    Return tt {| heap := heap w;
                 self := {| _block := Some a; _anchor := anchor |} |} in
  (forall k, find instr (instructions blk) = Val k ->
     position_before find instr w = moved (Z.max 0 (k - 1)) /\
     position_after find instr w
     = moved (Z.min (k + 1) (len (instructions blk)))) /\
  (forall e, find instr (instructions blk) = Exc e ->
     position_before find instr w = Raise e w /\
     position_after find instr w = Raise e w).
Proof.
  intros Hat _ moved. split.
  - intros k Hk. split.
    + now apply position_before_at with blk.
    + now apply position_after_at.
  - intros e He. split.
    + now apply position_before_find_raises with a blk.
    + now apply position_after_find_raises with a blk.
Qed.

Lemma position_of_absent_instruction_witness :
  at_block w_body 8%nat body /\
  (udiv12 ∉ instructions body) /\
  position_before (answers (-1)) udiv12 w_body
  = Return tt {| heap := heap w_body; self := mkBuilder (Some 8%nat) 0 |} /\
  position_after (answers (-1)) udiv12 w_body
  = Return tt {| heap := heap w_body; self := mkBuilder (Some 8%nat) 0 |}.
Proof.
  assert (Hat : at_block w_body 8%nat body) by (split; reflexivity).
  assert (Hnot : udiv12 ∉ instructions body).
  { intros Hin. cbn in Hin.
    repeat (apply elem_of_cons in Hin as [Heq | Hin]; [discriminate Heq|]).
    now apply elem_of_nil in Hin. }
  split; [exact Hat|]. split; [exact Hnot|].
  exact (proj1 (position_of_absent_instruction (answers (-1)) w_body 8%nat body
                  udiv12 Hat Hnot) (-1) eq_refl).
Defined.

(** C6 fails as stated: [udiv12] is not in block 8, where the cursor stands
    at anchor 3.  Whatever integer [k] the [find] of the sequence returns as
    its not-found sentinel, [position_before] and [position_after] return
    normally and set the anchor from it. *)
Lemma position_absent_moves_anchor :
  (udiv12 ∉ instructions body) /\
  _anchor (self w_body) = 3 /\
  (forall k : Z,
     position_before (answers k) udiv12 w_body
     = Return tt {| heap := heap w_body;
                    self := mkBuilder (Some 8%nat) (Z.max 0 (k - 1)) |} /\
     position_after (answers k) udiv12 w_body
     = Return tt {| heap := heap w_body;
                    self := mkBuilder (Some 8%nat) (Z.min (k + 1) 3) |}).
Proof.
  split.
  - intros Hin. cbn in Hin.
    repeat (apply elem_of_cons in Hin as [Heq | Hin]; [discriminate Heq|]).
    now apply elem_of_nil in Hin.
  - split; [reflexivity|]. intros k. split; reflexivity.
Qed.

(** ** Sequential emission *)

Lemma position_at_end_at w a blk :
  heap w !! a = Some blk ->
  position_at_end a w
  = Return tt {| heap := heap w;
                 self := {| _block := Some a;
                            _anchor := len (instructions blk) |} |}.
Proof. intros Hh. unfold position_at_end. unfold_M. cbn. now rewrite Hh. Qed.

Lemma len_snoc {A} (l : list A) (x : A) : len (l ++ [x]) = len l + 1.
Proof. unfold len. rewrite length_app. cbn. lia. Qed.

(** One accepted call with the cursor at the end of its block appends the
    instruction it returns and leaves the cursor at the new end. *)
Lemma append_step (c : call) w a blk :
  at_block w a blk ->
  _anchor (self w) = len (instructions blk) ->
  accepted c = true ->
  exists i w',
    run c w = Return i w' /\
    at_block w' a (with_instructions blk (instructions blk ++ [i])) /\
    _anchor (self w') = len (instructions blk ++ [i]).
Proof.
  intros Hat Hend Hacc.
  destruct (run_accepted_at c w a blk Hat Hacc) as [i Hrun].
  exists i, (inserted w a blk i). split; [exact Hrun|].
  pose proof (at_block_inserted w a blk i) as Hat'.
  rewrite Hend, list_insert_py_end in Hat'.
  split; [exact Hat'|]. cbn. rewrite Hend. symmetry. apply len_snoc.
Qed.

Lemma three_at_end_accepted (c1 c2 c3 : call) w a blk :
  heap w !! a = Some blk ->
  accepted c1 = true -> accepted c2 = true -> accepted c3 = true ->
  exists i1 i2 i3 w' blk',
    three_at_end a c1 c2 c3 w = Return (i1, i2, i3) w' /\
    at_block w' a blk' /\
    instructions blk' = instructions blk ++ [i1; i2; i3] /\
    parent blk' = parent blk /\
    terminator blk' = terminator blk /\
    _anchor (self w') = len (instructions blk) + 3.
Proof.
  intros Hh H1 H2 H3. unfold three_at_end.
  rewrite (bind_Return _ _ _ _ _ (position_at_end_at w a blk Hh)).
  set (w0 := {| heap := heap w; self := _ |}).
  assert (Hat0 : at_block w0 a blk) by (split; [reflexivity | exact Hh]).
  destruct (append_step c1 w0 a blk Hat0 eq_refl H1) as (i1 & w1 & R1 & Hat1 & E1).
  destruct (append_step c2 w1 a _ Hat1 E1 H2) as (i2 & w2 & R2 & Hat2 & E2).
  destruct (append_step c3 w2 a _ Hat2 E2 H3) as (i3 & w3 & R3 & Hat3 & E3).
  exists i1, i2, i3, w3. eexists. split.
  - rewrite (bind_Return _ _ _ _ _ R1), (bind_Return _ _ _ _ _ R2),
      (bind_Return _ _ _ _ _ R3). reflexivity.
  - split; [exact Hat3|]. cbn in *.
    split; [now rewrite <- !app_assoc|]. split; [reflexivity|].
    split; [reflexivity|]. rewrite E3, !len_snoc. lia.
Qed.

(** C8.  At a cursor whose anchor lies inside its block, [_insert] puts the
    instruction at index [anchor] of the block's sequence, keeping the
    instructions before and after it in order, and then adds one to the
    anchor.  Consequently, after [position_at_end b], three constructor calls
    whose argument checks pass all return, and the sequence of [b] is the old
    sequence followed by the three returned instructions in call order, the
    anchor standing after them; and whenever three calls made in that way
    return, that is the sequence they leave. *)
Theorem insert_at_anchor_then_append :
  (forall w a blk instr,
     at_block w a blk ->
     let anchor := _anchor (self w) in
     0 <= anchor <= len (instructions blk) ->
     exists w' blk',
       _insert instr w = Return tt w' /\
       at_block w' a blk' /\
       instructions blk' !! Z.to_nat anchor = Some instr /\
       instructions blk'
       = take (Z.to_nat anchor) (instructions blk)
         ++ instr :: drop (Z.to_nat anchor) (instructions blk) /\
       _anchor (self w') = anchor + 1) /\
  (forall w a blk c1 c2 c3,
     heap w !! a = Some blk ->
     accepted c1 = true -> accepted c2 = true -> accepted c3 = true ->
     exists i1 i2 i3 w' blk',
       three_at_end a c1 c2 c3 w = Return (i1, i2, i3) w' /\
       at_block w' a blk' /\
       instructions blk' = instructions blk ++ [i1; i2; i3] /\
       _anchor (self w') = len (instructions blk) + 3) /\
  (forall w a blk c1 c2 c3 i1 i2 i3 w',
     heap w !! a = Some blk ->
     three_at_end a c1 c2 c3 w = Return (i1, i2, i3) w' ->
     exists blk',
       at_block w' a blk' /\
       instructions blk' = instructions blk ++ [i1; i2; i3] /\
       _anchor (self w') = len (instructions blk) + 3).
Proof.
  split; [|split].
  - intros w a blk instr Hat anchor Hin.
    exists (inserted w a blk instr). eexists.
    split; [now apply _insert_at|].
    split; [apply at_block_inserted|]. cbn.
    split; [now apply list_insert_py_lookup|].
    split; [now apply list_insert_py_in_range | reflexivity].
  - intros w a blk c1 c2 c3 Hh H1 H2 H3.
    destruct (three_at_end_accepted c1 c2 c3 w a blk Hh H1 H2 H3)
      as (i1 & i2 & i3 & w' & blk' & R & Hat & Hi & _ & _ & Ha).
    now exists i1, i2, i3, w', blk'.
  - intros w a blk c1 c2 c3 i1 i2 i3 w' Hh R.
    assert (Hacc : accepted c1 = true /\ accepted c2 = true /\ accepted c3 = true).
    { unfold three_at_end in R.
      apply bind_inv_Return in R as (_ & w0 & _ & R).
      apply bind_inv_Return in R as (j1 & w1 & R1 & R).
      apply bind_inv_Return in R as (j2 & w2 & R2 & R).
      apply bind_inv_Return in R as (j3 & w3 & R3 & _).
      apply run_inv_Return in R1 as [H1 _].
      apply run_inv_Return in R2 as [H2 _].
      apply run_inv_Return in R3 as [H3 _]. auto. }
    destruct Hacc as (H1 & H2 & H3).
    destruct (three_at_end_accepted c1 c2 c3 w a blk Hh H1 H2 H3)
      as (j1 & j2 & j3 & w'' & blk' & R' & Hat & Hi & _ & _ & Ha).
    rewrite R in R'. injection R' as -> -> -> ->.
    now exists blk'.
Qed.

Lemma insert_at_anchor_then_append_witness :
  at_block w_body 8%nat body /\
  0 <= _anchor (self w_body) <= len (instructions body) /\
  heap w_entry !! 8%nat = Some body /\
  accepted (CallAdd one two "x") = true /\
  accepted (CallIcmpSigned "<" one two "c") = true /\
  accepted (CallAlloca i32 (CountInt 5) "p") = true /\
  (exists w' blk',
     _insert udiv12 w_body = Return tt w' /\
     at_block w' 8%nat blk' /\
     instructions blk' !! 3%nat = Some udiv12) /\
  (exists i1 i2 i3 w' blk',
     three_at_end 8%nat (CallAdd one two "x") (CallIcmpSigned "<" one two "c")
       (CallAlloca i32 (CountInt 5) "p") w_entry
     = Return (i1, i2, i3) w' /\
     at_block w' 8%nat blk' /\
     instructions blk' = instructions body ++ [i1; i2; i3] /\
     _anchor (self w') = len (instructions body) + 3).
Proof.
  assert (Hat : at_block w_body 8%nat body) by (split; reflexivity).
  assert (Hin : 0 <= _anchor (self w_body) <= len (instructions body))
    by (vm_compute; split; discriminate).
  destruct insert_at_anchor_then_append as (Hins & Hthree & _).
  split; [exact Hat|]. split; [exact Hin|]. split; [reflexivity|].
  split; [reflexivity|]. split; [reflexivity|]. split; [reflexivity|].
  split.
  - destruct (Hins w_body 8%nat body udiv12 Hat Hin)
      as (w' & blk' & R & Hat' & Hl & _).
    exists w', blk'. split; [exact R|]. split; [exact Hat' | exact Hl].
  - exact (Hthree w_entry 8%nat body (CallAdd one two "x")
             (CallIcmpSigned "<" one two "c") (CallAlloca i32 (CountInt 5) "p")
             eq_refl eq_refl eq_refl eq_refl).
Defined.

(** * Further properties of the builder *)

(** ** Runs of constructor calls *)

Lemma take_insert_here {A} (n : nat) (x : A) (l : list A) :
  (n <= length l)%nat ->
  take (S n) (take n l ++ x :: drop n l) = take n l ++ [x].
Proof.
  intros Hn.
  replace (take n l ++ x :: drop n l) with ((take n l ++ [x]) ++ drop n l)
    by (now rewrite <- app_assoc).
  apply take_app_length'. rewrite length_app, length_take. cbn. lia.
Qed.

Lemma drop_insert_here {A} (n : nat) (x : A) (l : list A) :
  (n <= length l)%nat ->
  drop (S n) (take n l ++ x :: drop n l) = drop n l.
Proof.
  intros Hn.
  replace (take n l ++ x :: drop n l) with ((take n l ++ [x]) ++ drop n l)
    by (now rewrite <- app_assoc).
  apply drop_app_length'. rewrite length_app, length_take. cbn. lia.
Qed.

Lemma run_all_at (cs : list call) (w : World)
    (a : addr) (blk : Block) :
  at_block w a blk ->
  0 <= _anchor (self w) <= len (instructions blk) ->
  Forall (fun c => accepted c = true) cs ->
  exists new w' blk',
    run_all cs w = Return new w' /\
    length new = length cs /\
    at_block w' a blk' /\
    instructions blk'
    = take (Z.to_nat (_anchor (self w))) (instructions blk)
      ++ new ++ drop (Z.to_nat (_anchor (self w))) (instructions blk) /\
    _anchor (self w') = _anchor (self w) + len new /\
    parent blk' = parent blk /\
    terminator blk' = terminator blk.
Proof.
  revert w blk. induction cs as [|c cs IH]; intros w blk Hat Hin Hacc.
  - exists [], w, blk. cbn. rewrite take_drop.
    repeat split; try reflexivity; [apply Hat | apply Hat | unfold len; cbn; lia].
  - apply Forall_cons in Hacc as [Hc Hcs].
    destruct (run_accepted_at c w a blk Hat Hc) as [i Hrun].
    pose proof (at_block_inserted w a blk i) as Hat1.
    rewrite list_insert_py_in_range in Hat1 by exact Hin.
    set (k := _anchor (self w)) in *.
    set (n := Z.to_nat k) in *.
    assert (Hn : (n <= length (instructions blk))%nat) by (unfold len in Hin; lia).
    destruct (IH (inserted w a blk i) _ Hat1) as
      (new & w' & blk' & Hrest & Hlen & Hat' & Hi & Ha & Hp & Ht); [|exact Hcs|].
    { cbn. fold k. unfold len in *. rewrite length_app. cbn.
      rewrite length_take, length_drop. lia. }
    exists (i :: new), w', blk'. cbn [run_all].
    rewrite (bind_Return _ _ _ _ _ Hrun), (bind_Return _ _ _ _ _ Hrest).
    split; [reflexivity|]. split; [cbn; now rewrite Hlen|].
    split; [exact Hat'|]. cbn in Hi, Ha. fold k in Hi, Ha.
    replace (Z.to_nat (k + 1)) with (S n) in Hi by lia.
    rewrite take_insert_here, drop_insert_here in Hi by exact Hn.
    split; [rewrite Hi; now rewrite <- app_assoc|].
    split; [rewrite Ha; unfold len; cbn; lia|].
    split; [exact Hp | exact Ht].
Qed.

(** X1.  Constructor calls made one after the other from a cursor whose
    anchor lies inside its block, each passing its own argument checks, all
    return; the instructions they return sit in the block as one contiguous
    run in call order, between the instructions that were before the anchor
    and those that were after it, and the anchor ends just after the run.
    The block's function and terminator are untouched. *)
Theorem run_all_inserts_a_contiguous_run (cs : list call) (w : World)
    (a : addr) (blk : Block) :
  at_block w a blk ->
  0 <= _anchor (self w) <= len (instructions blk) ->
  Forall (fun c => accepted c = true) cs ->
  exists new w' blk',
    run_all cs w = Return new w' /\
    length new = length cs /\
    at_block w' a blk' /\
    instructions blk'
    = take (Z.to_nat (_anchor (self w))) (instructions blk)
      ++ new ++ drop (Z.to_nat (_anchor (self w))) (instructions blk) /\
    _anchor (self w') = _anchor (self w) + len new /\
    parent blk' = parent blk /\
    terminator blk' = terminator blk.
Proof. apply run_all_at. Qed.

Lemma run_all_inserts_a_contiguous_run_witness :
  at_block w_body 8%nat body /\
  0 <= _anchor (self w_body) <= len (instructions body) /\
  Forall (fun c => accepted c = true)
    [CallMul one two "m"; CallLoad one "l"] /\
  exists new w' blk',
    run_all [CallMul one two "m"; CallLoad one "l"] w_body = Return new w' /\
    length new = 2%nat /\
    at_block w' 8%nat blk' /\
    instructions blk' = [add12; mul12; sub12] ++ new ++ [].
Proof.
  assert (Hat : at_block w_body 8%nat body) by (split; reflexivity).
  assert (Hin : 0 <= _anchor (self w_body) <= len (instructions body))
    by (vm_compute; split; discriminate).
  assert (Hacc : Forall (fun c => accepted c = true)
                   [CallMul one two "m"; CallLoad one "l"])
    by (repeat constructor).
  split; [exact Hat|]. split; [exact Hin|]. split; [exact Hacc|].
  destruct (run_all_inserts_a_contiguous_run _ w_body 8%nat body Hat Hin Hacc)
    as (new & w' & blk' & R & Hl & Hat' & Hi & _).
  exists new, w', blk'. split; [exact R|]. split; [exact Hl|].
  split; [exact Hat' | exact Hi].
Defined.

Lemma position_at_start_eq b w :
  position_at_start b w
  = Return tt {| heap := heap w; self := {| _block := Some b; _anchor := 0 |} |}.
Proof. reflexivity. Qed.

Lemma run_all_after_position_at_start (cs : list call) w b blk :
  heap w !! b = Some blk ->
  Forall (fun c => accepted c = true) cs ->
  exists new w' blk',
    (position_at_start b;; run_all cs) w = Return new w' /\
    at_block w' b blk' /\
    instructions blk' = new ++ instructions blk /\
    _anchor (self w') = len new.
Proof.
  intros Hh Hacc.
  rewrite (bind_Return _ _ _ _ _ (position_at_start_eq b w)).
  set (w0 := {| heap := heap w; self := _ |}).
  assert (Hat : at_block w0 b blk) by (split; [reflexivity | exact Hh]).
  destruct (run_all_at cs w0 b blk Hat) as
    (new & w' & blk' & R & _ & Hat' & Hi & Ha & _);
    [cbn; unfold len; lia | exact Hacc |].
  exists new, w', blk'. split; [exact R|]. split; [exact Hat'|].
  cbn in Hi, Ha. rewrite drop_0 in Hi. split; [exact Hi | lia].
Qed.

Lemma run_all_after_position_at_end (cs : list call) w b blk :
  heap w !! b = Some blk ->
  Forall (fun c => accepted c = true) cs ->
  exists new w' blk',
    (position_at_end b;; run_all cs) w = Return new w' /\
    at_block w' b blk' /\
    instructions blk' = instructions blk ++ new /\
    _anchor (self w') = len (instructions blk) + len new.
Proof.
  intros Hh Hacc.
  rewrite (bind_Return _ _ _ _ _ (position_at_end_at w b blk Hh)).
  set (w0 := {| heap := heap w; self := _ |}).
  assert (Hat : at_block w0 b blk) by (split; [reflexivity | exact Hh]).
  destruct (run_all_at cs w0 b blk Hat) as
    (new & w' & blk' & R & _ & Hat' & Hi & Ha & _);
    [cbn; unfold len; lia | exact Hacc |].
  exists new, w', blk'. split; [exact R|]. split; [exact Hat'|].
  cbn in Hi, Ha. unfold len in Hi. rewrite Nat2Z.id in Hi.
  rewrite firstn_all, drop_all, app_nil_r in Hi.
  split; [exact Hi | exact Ha].
Qed.

(** X2.  After [position_at_start b], a run of accepted constructor calls
    puts the returned instructions, in call order, in front of the
    instructions the block had; after [position_at_end b] it puts them behind
    these.  In both cases all the calls return and the anchor ends just after
    the new instructions. *)
Theorem runs_after_positioning (cs : list call) (w : World) (b : addr)
    (blk : Block) :
  heap w !! b = Some blk ->
  Forall (fun c => accepted c = true) cs ->
  (exists new w' blk',
     (position_at_start b;; run_all cs) w = Return new w' /\
     at_block w' b blk' /\
     instructions blk' = new ++ instructions blk /\
     _anchor (self w') = len new) /\
  (exists new w' blk',
     (position_at_end b;; run_all cs) w = Return new w' /\
     at_block w' b blk' /\
     instructions blk' = instructions blk ++ new /\
     _anchor (self w') = len (instructions blk) + len new).
Proof.
  intros Hh Hacc. split.
  - now apply run_all_after_position_at_start.
  - now apply run_all_after_position_at_end.
Qed.

Lemma runs_after_positioning_witness :
  heap w_entry !! 8%nat = Some body /\
  Forall (fun c => accepted c = true)
    [CallMul one two "m"; CallLoad one "l"] /\
  exists new w' blk',
    (position_at_start 8%nat;; run_all [CallMul one two "m"; CallLoad one "l"])
      w_entry = Return new w' /\
    at_block w' 8%nat blk' /\
    instructions blk' = new ++ [add12; mul12; sub12] /\
    _anchor (self w') = len new.
Proof.
  assert (Hacc : Forall (fun c => accepted c = true)
                   [CallMul one two "m"; CallLoad one "l"])
    by (repeat constructor).
  split; [reflexivity|]. split; [exact Hacc|].
  exact (proj1 (runs_after_positioning _ w_entry 8%nat body eq_refl Hacc)).
Defined.

(** ** The other constructors *)

(** X3.  With operands of equal types and the builder in a block, each of
    [sub], [mul], [udiv] and [sdiv] returns the instruction whose opcode is
    its own name, whose type is the type of [lhs] and whose operands are
    [lhs; rhs], and after the call that instruction is in the sequence of the
    current block: the sequence is the old one with the instruction put in at
    the anchor (at index [anchor] when the anchor is inside the block), the
    anchor has advanced by one and no other block has changed. *)
Theorem arithmetic_opcodes (w : World) (a : addr) (blk : Block)
    (lhs rhs : Value) (name : string) :
  at_block w a blk ->
  type_of lhs = type_of rhs ->
  let built (call : Value -> Value -> string -> M Value) (opname : string) :=
    let i := Instruction (parent blk) (type_of lhs) opname [lhs; rhs] name in
    exists w' blk',
      call lhs rhs name w = Return i w' /\
      at_block w' a blk' /\
      instructions blk' = list_insert_py (_anchor (self w)) i (instructions blk) /\
      length (instructions blk') = S (length (instructions blk)) /\
      _anchor (self w') = _anchor (self w) + 1 /\
      (forall a', a' <> a -> heap w' !! a' = heap w !! a') /\
      (0 <= _anchor (self w) <= len (instructions blk) ->
       instructions blk'
       = take (Z.to_nat (_anchor (self w))) (instructions blk)
         ++ i :: drop (Z.to_nat (_anchor (self w))) (instructions blk) /\
       instructions blk' !! Z.to_nat (_anchor (self w)) = Some i) in
  built sub "sub" /\ built mul "mul" /\ built udiv "udiv" /\ built sdiv "sdiv".
Proof.
  intros Hat Heq built.
  assert (H : forall opname,
             let i := Instruction (parent blk) (type_of lhs) opname [lhs; rhs] name in
             exists w' blk',
               _binop opname lhs rhs name w = Return i w' /\
               at_block w' a blk' /\
               instructions blk'
               = list_insert_py (_anchor (self w)) i (instructions blk) /\
               length (instructions blk') = S (length (instructions blk)) /\
               _anchor (self w') = _anchor (self w) + 1 /\
               (forall a', a' <> a -> heap w' !! a' = heap w !! a') /\
               (0 <= _anchor (self w) <= len (instructions blk) ->
                instructions blk'
                = take (Z.to_nat (_anchor (self w))) (instructions blk)
                  ++ i :: drop (Z.to_nat (_anchor (self w))) (instructions blk) /\
                instructions blk' !! Z.to_nat (_anchor (self w)) = Some i)).
  { intros opname i.
    destruct (inserted_view w a blk i)
      as (blk' & Hat' & Hi & Hl & _ & _ & Ha & Hfr & Hin).
    exists (inserted w a blk i), blk'.
    split; [exact (_binop_at opname lhs rhs name w a blk Hat Heq)|].
    repeat (split; [assumption|]). exact Hin. }
  unfold built, sub, mul, udiv, sdiv.
  split; [apply H|]. split; [apply H|]. split; apply H.
Qed.

Lemma arithmetic_opcodes_witness :
  at_block w_body 8%nat body /\
  type_of one = type_of two /\
  exists w' blk',
    udiv one two "q" w_body = Return udiv12 w' /\
    at_block w' 8%nat blk' /\
    instructions blk' = [add12; mul12; sub12; udiv12].
Proof.
  assert (Hat : at_block w_body 8%nat body) by (split; reflexivity).
  split; [exact Hat|]. split; [reflexivity|].
  destruct (proj1 (proj2 (proj2
              (arithmetic_opcodes w_body 8%nat body one two "q" Hat eq_refl))))
    as (w' & blk' & R & Hat' & Hi & _).
  exists w', blk'. split; [exact R|]. split; [exact Hat' | exact Hi].
Defined.

(** X4.  The ten cast constructors check nothing about the value or the
    target type: positioned in a block, each returns and inserts the cast
    instruction carrying its own name as opcode, the value, the target type
    and the name it was given. *)
Theorem casts_are_unchecked (w : World) (a : addr) (blk : Block)
    (val : Value) (typ : lltype) (name : string) :
  at_block w a blk ->
  let built (opname : string) :=
    Return (CastInstr (parent blk) opname val typ name)
      (inserted w a blk (CastInstr (parent blk) opname val typ name)) in
  trunc val typ name w = built "trunc" /\
  zext val typ name w = built "zext" /\
  sext val typ name w = built "sext" /\
  fptrunc val typ name w = built "fptrunc" /\
  fpext val typ name w = built "fpext" /\
  bitcast val typ name w = built "bitcast" /\
  fptoui val typ name w = built "fptoui" /\
  uitofp val typ name w = built "uitofp" /\
  fptosi val typ name w = built "fptosi" /\
  sitofp val typ name w = built "sitofp".
Proof.
  intros Hat built.
  unfold trunc, zext, sext, fptrunc, fpext, bitcast, fptoui, uitofp, fptosi,
    sitofp, _castop, built.
  repeat split;
    exact (emit_at (fun f => CastInstr f _ val typ name) w a blk Hat).
Qed.

Lemma casts_are_unchecked_witness :
  at_block w_body 8%nat body /\
  trunc one i64 "t" w_body
  = Return (CastInstr 3%nat "trunc" one i64 "t")
      (inserted w_body 8%nat body (CastInstr 3%nat "trunc" one i64 "t")).
Proof.
  assert (Hat : at_block w_body 8%nat body) by (split; reflexivity).
  split; [exact Hat|].
  exact (proj1 (casts_are_unchecked w_body 8%nat body one i64 "t" Hat)).
Defined.

(** X5.  [load] and [store] check nothing about their operands, in
    particular not that the pointer operand has a pointer type: positioned in
    a block, [load ptr] returns and inserts the load instruction on [ptr],
    and [store val ptr] the store instruction on [val] and [ptr] in that
    order. *)
Theorem load_store_are_unchecked (w : World) (a : addr) (blk : Block)
    (val ptr : Value) (name : string) :
  at_block w a blk ->
  load ptr name w
  = Return (LoadInstr (parent blk) ptr name)
      (inserted w a blk (LoadInstr (parent blk) ptr name)) /\
  store val ptr w
  = Return (StoreInstr (parent blk) val ptr)
      (inserted w a blk (StoreInstr (parent blk) val ptr)).
Proof.
  intros Hat. unfold load, store. split.
  - exact (emit_at (fun f => LoadInstr f ptr name) w a blk Hat).
  - exact (emit_at (fun f => StoreInstr f val ptr) w a blk Hat).
Qed.

Lemma load_store_are_unchecked_witness :
  at_block w_body 8%nat body /\
  load one "l" w_body
  = Return (LoadInstr 3%nat one "l")
      (inserted w_body 8%nat body (LoadInstr 3%nat one "l")).
Proof.
  assert (Hat : at_block w_body 8%nat body) by (split; reflexivity).
  split; [exact Hat|].
  exact (proj1 (load_store_are_unchecked w_body 8%nat body one one "l" Hat)).
Defined.

(** ** A builder without block *)

Lemma function_none w :
  _block (self w) = None ->
  function w
  = Raise (AttributeError "'NoneType' object has no attribute 'parent'") w.
Proof. intros Hb. unfold function. unfold_M. now rewrite Hb. Qed.

(** X6.  On a builder that has no block (created without one and never
    positioned), every instruction constructor whose own argument checks pass
    and every terminator raises the attribute error of reading [parent] on
    [None], and [position_before] and [position_after] raise that of reading
    [instructions]; the store and the cursor stay as they were. *)
Theorem builder_without_block_raises (w : World) :
  _block (self w) = None ->
  let no_attr (attr : string) :=
    AttributeError ("'NoneType' object has no attribute '" +:+ attr +:+ "'") in
  (forall c, accepted c = true -> run c w = Raise (no_attr "parent") w) /\
  (forall target, jump target w = Raise (no_attr "parent") w) /\
  (forall cond truebr falsebr,
     branch cond truebr falsebr w = Raise (no_attr "parent") w) /\
  ret_void w = Raise (no_attr "parent") w /\
  (forall value, ret value w = Raise (no_attr "parent") w) /\
  (forall find instr,
     position_before find instr w = Raise (no_attr "instructions") w) /\
  (forall find instr,
     position_after find instr w = Raise (no_attr "instructions") w).
Proof.
  intros Hb no_attr. pose proof (function_none w Hb) as Hf.
  split; [|repeat split].
  - intros c Hacc.
    destruct (run_cases c w) as [(_ & g & ->) | (Hrej & _)]; [|congruence].
    now rewrite (bind_Raise _ _ _ _ _ Hf).
  - intros target. unfold jump. now rewrite (bind_Raise _ _ _ _ _ Hf).
  - intros cond truebr falsebr. unfold branch.
    now rewrite (bind_Raise _ _ _ _ _ Hf).
  - unfold ret_void. now rewrite (bind_Raise _ _ _ _ _ Hf).
  - intros value. unfold ret. now rewrite (bind_Raise _ _ _ _ _ Hf).
  - intros find instr. unfold position_before. unfold_M. now rewrite Hb.
  - intros find instr. unfold position_after. unfold_M. now rewrite Hb.
Qed.

Lemma builder_without_block_raises_witness :
  _block (self w_none) = None /\
  accepted (CallAdd one two "x") = true /\
  run (CallAdd one two "x") w_none
  = Raise (AttributeError "'NoneType' object has no attribute 'parent'") w_none.
Proof.
  split; [reflexivity|]. split; [reflexivity|].
  exact (proj1 (builder_without_block_raises w_none eq_refl)
           (CallAdd one two "x") eq_refl).
Defined.

(** ** Calls that raise, calls that return *)

Lemma _set_terminator_inv_Raise term w e w' :
  _set_terminator term w = Raise e w' -> w' = w.
Proof.
  unfold _set_terminator. unfold_M.
  destruct (_block (self w)) as [a|]; [|congruence].
  destruct (heap w !! a) as [blk|]; [|congruence].
  destruct (is_terminated blk); cbn; congruence.
Qed.

Lemma terminator_inv_Raise (k : Function -> M Value) w e w' :
  (forall f w1 e1 w2, k f w1 = Raise e1 w2 -> w2 = w1) ->
  (f ← function; k f) w = Raise e w' -> w' = w.
Proof.
  intros Hk H. apply bind_inv_Raise in H as [H | (f & w1 & Hf & H)].
  - now apply function_inv_Raise in H.
  - apply function_inv_Return in Hf as (-> & _). now apply Hk in H.
Qed.

Lemma position_before_inv_Raise find instr w e w' :
  position_before find instr w = Raise e w' -> w' = w.
Proof.
  unfold position_before. unfold_M.
  destruct (_block (self w)) as [a|]; [|congruence].
  destruct (heap w !! a) as [blk|]; [|congruence].
  destruct (find instr (instructions blk)); cbn; congruence.
Qed.

Lemma position_after_inv_Raise find instr w e w' :
  position_after find instr w = Raise e w' -> w' = w.
Proof.
  unfold position_after. unfold_M.
  destruct (_block (self w)) as [a|]; [|congruence].
  destruct (heap w !! a) as [blk|]; [|congruence].
  destruct (find instr (instructions blk)); cbn; congruence.
Qed.

Lemma jump_inv_Raise target w e w' : jump target w = Raise e w' -> w' = w.
Proof.
  unfold jump. apply terminator_inv_Raise. intros f w1 e1 w2 H.
  apply bind_inv_Raise in H as [H | (t & w3 & _ & H)]; [|discriminate].
  now apply _set_terminator_inv_Raise in H.
Qed.

Lemma branch_inv_Raise cond truebr falsebr w e w' :
  branch cond truebr falsebr w = Raise e w' -> w' = w.
Proof.
  unfold branch. apply terminator_inv_Raise. intros f w1 e1 w2 H.
  apply bind_inv_Raise in H as [H | (t & w3 & _ & H)]; [|discriminate].
  now apply _set_terminator_inv_Raise in H.
Qed.

Lemma ret_void_inv_Raise w e w' : ret_void w = Raise e w' -> w' = w.
Proof.
  unfold ret_void. apply terminator_inv_Raise. intros f w1 e1 w2 H.
  now apply _set_terminator_inv_Raise in H.
Qed.

Lemma ret_inv_Raise value w e w' : ret value w = Raise e w' -> w' = w.
Proof.
  unfold ret. apply terminator_inv_Raise. intros f w1 e1 w2 H.
  now apply _set_terminator_inv_Raise in H.
Qed.

(** X7.  A call that raises has changed nothing: whenever an instruction
    constructor, a terminator, [position_before] or [position_after] raises,
    the store and the cursor it leaves are those it was called with.  No call
    inserts, sets a terminator or moves the cursor and then fails. *)
Theorem raising_call_changes_nothing (w : World) (e : exn) (w' : World) :
  (forall c, run c w = Raise e w' -> w' = w) /\
  (forall target, jump target w = Raise e w' -> w' = w) /\
  (forall cond truebr falsebr,
     branch cond truebr falsebr w = Raise e w' -> w' = w) /\
  (ret_void w = Raise e w' -> w' = w) /\
  (forall value, ret value w = Raise e w' -> w' = w) /\
  (forall find instr, position_before find instr w = Raise e w' -> w' = w) /\
  (forall find instr, position_after find instr w = Raise e w' -> w' = w).
Proof.
  split; [intros c; apply run_inv_Raise|].
  split; [intros t; apply jump_inv_Raise|].
  split; [intros c t f; apply branch_inv_Raise|].
  split; [apply ret_void_inv_Raise|].
  split; [intros v; apply ret_inv_Raise|].
  split; [intros find i; apply position_before_inv_Raise|].
  intros find i; apply position_after_inv_Raise.
Qed.

Lemma raising_call_changes_nothing_witness :
  run (CallAdd one wide "x") w_body
  = Raise (AssertionError "Operands must be the same type") w_body /\
  w_body = w_body.
Proof.
  assert (R : run (CallAdd one wide "x") w_body
              = Raise (AssertionError "Operands must be the same type") w_body)
    by reflexivity.
  split; [exact R|].
  exact (proj1 (raising_call_changes_nothing w_body _ w_body) _ R).
Defined.

Lemma list_insert_py_elem {A} (i : Z) (x : A) (l : list A) :
  x ∈ list_insert_py i x l.
Proof. unfold list_insert_py. apply elem_of_app. right. left. Qed.

Lemma list_insert_py_shape {A} (i : Z) (x : A) (l : list A) :
  exists n, (n <= length l)%nat /\
            list_insert_py i x l = take n l ++ x :: drop n l.
Proof.
  unfold list_insert_py. eexists. split; [|reflexivity].
  unfold len. destruct (Z.ltb_spec i 0); lia.
Qed.

(** X8.  A constructor call that returns has touched the current block only,
    and only by putting the returned instruction into its sequence: the
    cursor stays in the same block with its anchor advanced by one, every
    other block of the store is as it was, and the current block keeps its
    function and its terminator.  Its new sequence is the old one with the
    returned instruction inserted at one place: the instructions before that
    place and those after it are the old ones, in their order, none lost and
    none overwritten. *)
Theorem returning_call_frame (c : call) (w : World) (i : Value) (w' : World) :
  run c w = Return i w' ->
  exists a blk blk',
    at_block w a blk /\
    at_block w' a blk' /\
    _anchor (self w') = _anchor (self w) + 1 /\
    (forall a', a' <> a -> heap w' !! a' = heap w !! a') /\
    parent blk' = parent blk /\
    terminator blk' = terminator blk /\
    length (instructions blk') = S (length (instructions blk)) /\
    i ∈ instructions blk' /\
    instructions blk' = list_insert_py (_anchor (self w)) i (instructions blk) /\
    (exists n, (n <= length (instructions blk))%nat /\
               instructions blk'
               = take n (instructions blk) ++ i :: drop n (instructions blk)) /\
    (0 <= _anchor (self w) <= len (instructions blk) ->
     instructions blk'
     = take (Z.to_nat (_anchor (self w))) (instructions blk)
       ++ i :: drop (Z.to_nat (_anchor (self w))) (instructions blk)).
Proof.
  intros R. apply run_inv_Return in R as (_ & a & blk & Hat & ->).
  destruct (inserted_view w a blk i)
    as (blk' & Hat' & Hi & Hl & Hp & Ht & Ha & Hfr & Hin).
  exists a, blk, blk'. split; [exact Hat|].
  split; [exact Hat'|]. split; [exact Ha|]. split; [exact Hfr|].
  split; [exact Hp|]. split; [exact Ht|]. split; [exact Hl|].
  split; [rewrite Hi; apply list_insert_py_elem|]. split; [exact Hi|].
  split; [rewrite Hi; apply list_insert_py_shape|].
  intros Hr. exact (proj1 (Hin Hr)).
Qed.

Lemma returning_call_frame_witness :
  run (CallLoad one "l") w_body
  = Return (LoadInstr 3%nat one "l")
      (inserted w_body 8%nat body (LoadInstr 3%nat one "l")) /\
  exists a blk blk',
    at_block w_body a blk /\
    at_block (inserted w_body 8%nat body (LoadInstr 3%nat one "l")) a blk' /\
    length (instructions blk') = S (length (instructions blk)) /\
    instructions blk'
    = list_insert_py (_anchor (self w_body)) (LoadInstr 3%nat one "l")
        (instructions blk).
Proof.
  assert (R : run (CallLoad one "l") w_body
              = Return (LoadInstr 3%nat one "l")
                  (inserted w_body 8%nat body (LoadInstr 3%nat one "l")))
    by reflexivity.
  split; [exact R|].
  destruct (returning_call_frame _ _ _ _ R)
    as (a & blk & blk' & H1 & H2 & _ & _ & _ & _ & H3 & _ & H4 & _).
  exists a, blk, blk'. split; [exact H1|]. split; [exact H2|].
  split; [exact H3 | exact H4].
Defined.

(** ** What any run of builder methods keeps *)

Lemma _set_terminator_inv_Return term w t w' :
  _set_terminator term w = Return t w' ->
  exists a blk,
    at_block w a blk /\ terminator blk = None /\ w' = closed_with w a blk term.
Proof.
  unfold _set_terminator, at_block, closed_with, is_terminated. unfold_M.
  destruct (_block (self w)) as [a|]; [|discriminate].
  destruct (heap w !! a) as [blk|] eqn:Hh; [|discriminate].
  destruct (terminator blk) eqn:Ht; cbn; [discriminate|].
  intros [= <- <-]. exists a, blk. now rewrite Hh.
Qed.

Lemma terminator_inv_Return (k : Function -> M Value) w t w' :
  (forall f w1 t1 w2, k f w1 = Return t1 w2 ->
     exists a blk term,
       at_block w1 a blk /\ terminator blk = None /\
       w2 = closed_with w1 a blk term) ->
  (f ← function; k f) w = Return t w' ->
  exists a blk term,
    at_block w a blk /\ terminator blk = None /\ w' = closed_with w a blk term.
Proof.
  intros Hk H. apply bind_inv_Return in H as (f & w1 & Hf & H).
  apply function_inv_Return in Hf as (-> & _). now apply Hk in H.
Qed.

(** What one method call does to the store, in all. *)
Lemma exec_cases (m : method) (w : World) :
  exec m w = w \/
  (exists a blk i, at_block w a blk /\ exec m w = inserted w a blk i) \/
  (exists a blk t, at_block w a blk /\ terminator blk = None /\
                   exec m w = closed_with w a blk t) \/
  (exists a blk z, heap w !! a = Some blk /\ 0 <= z <= len (instructions blk) /\
                   exec m w = {| heap := heap w;
                                 self := {| _block := Some a; _anchor := z |} |}) \/
  (~ method_wf (heap w) m /\ heap (exec m w) = heap w).
Proof.
  assert (Hterm : forall o : outcome Value,
             (forall e w', o = Raise e w' -> w' = w) ->
             (forall t w', o = Return t w' ->
                exists a blk term, at_block w a blk /\ terminator blk = None /\
                                   w' = closed_with w a blk term) ->
             after o = w \/
             (exists a blk i, at_block w a blk /\ after o = inserted w a blk i) \/
             (exists a blk t, at_block w a blk /\ terminator blk = None /\
                              after o = closed_with w a blk t)).
  { intros [t w'|e w'] Hr Ht; cbn.
    - destruct (Ht t w' eq_refl) as (a & blk & term & Hat & Hn & ->).
      right. right. now exists a, blk, term.
    - left. now apply (Hr e). }
  assert (Hset : forall term w1 t1 w2,
             _set_terminator term w1 = Return t1 w2 ->
             exists a blk term,
               at_block w1 a blk /\ terminator blk = None /\
               w2 = closed_with w1 a blk term).
  { intros term w1 t1 w2 H.
    apply _set_terminator_inv_Return in H as (a & blk & Hat & Hn & ->).
    now exists a, blk, term. }
  assert (Hset2 : forall term w1 t1 w2,
             (_set_terminator term;; mret term) w1 = Return t1 w2 ->
             exists a blk term,
               at_block w1 a blk /\ terminator blk = None /\
               w2 = closed_with w1 a blk term).
  { intros term w1 t1 w2 H.
    apply bind_inv_Return in H as (t & w3 & H & [= <- <-]).
    now apply Hset in H. }
  destruct m as [c|target|cond truebr falsebr| |value|find instr|find instr|b|b];
    cbn [exec].
  - destruct (run c w) as [i w'|e w'] eqn:R; cbn.
    + apply run_inv_Return in R as (_ & a & blk & Hat & ->).
      right. left. now exists a, blk, i.
    + left. now apply run_inv_Raise in R.
  - destruct (Hterm (jump target w)) as [H | [H | H]]; auto.
    + intros e w'. apply jump_inv_Raise.
    + intros t w'. unfold jump. apply terminator_inv_Return.
      intros f. apply Hset2.
  - destruct (Hterm (branch cond truebr falsebr w)) as [H | [H | H]]; auto.
    + intros e w'. apply branch_inv_Raise.
    + intros t w'. unfold branch. apply terminator_inv_Return.
      intros f. apply Hset2.
  - destruct (Hterm (ret_void w)) as [H | [H | H]]; auto.
    + intros e w'. apply ret_void_inv_Raise.
    + intros t w'. unfold ret_void. apply terminator_inv_Return.
      intros f. apply Hset.
  - destruct (Hterm (ret value w)) as [H | [H | H]]; auto.
    + intros e w'. apply ret_inv_Raise.
    + intros t w'. unfold ret. apply terminator_inv_Return.
      intros f. apply Hset.
  - destruct (position_before find instr w) as [[] w'|e w'] eqn:R; cbn.
    + unfold position_before in R. unfold_M.
      destruct (_block (self w)) as [a|] eqn:Hb; [|discriminate].
      destruct (heap w !! a) as [blk|] eqn:Hh; [|discriminate].
      destruct (find instr (instructions blk)) as [k|e] eqn:Hk; cbn in R;
        [|discriminate].
      injection R as <-.
      destruct (decide (-1 <= k < len (instructions blk))) as [Hr|Hr].
      * do 3 right. left. exists a, blk, (Z.max 0 (k - 1)).
        split; [exact Hh|]. split; [unfold len in *; lia|].
        cbn. now rewrite Hb.
      * do 4 right. split; [|reflexivity]. cbn [method_wf].
        intros Hwf. apply Hr. exact (Hwf _ _ Hk).
    + left. now apply position_before_inv_Raise in R.
  - destruct (position_after find instr w) as [[] w'|e w'] eqn:R; cbn.
    + unfold position_after in R. unfold_M.
      destruct (_block (self w)) as [a|] eqn:Hb; [|discriminate].
      destruct (heap w !! a) as [blk|] eqn:Hh; [|discriminate].
      destruct (find instr (instructions blk)) as [k|e] eqn:Hk; cbn in R;
        [|discriminate].
      injection R as <-.
      destruct (decide (-1 <= k < len (instructions blk))) as [Hr|Hr].
      * do 3 right. left. exists a, blk, (Z.min (k + 1) (len (instructions blk))).
        split; [exact Hh|]. split; [unfold len in *; lia|].
        cbn. now rewrite Hb.
      * do 4 right. split; [|reflexivity]. cbn [method_wf].
        intros Hwf. apply Hr. exact (Hwf _ _ Hk).
    + left. now apply position_after_inv_Raise in R.
  - destruct (heap w !! b) as [blk|] eqn:Hh.
    + do 3 right. left. exists b, blk, 0.
      split; [exact Hh|]. split; [unfold len; lia | reflexivity].
    + do 4 right. cbn. rewrite Hh. split; [|reflexivity].
      intros [? ?]. discriminate.
  - destruct (heap w !! b) as [blk|] eqn:Hh.
    + do 3 right. left. exists b, blk, (len (instructions blk)).
      rewrite (position_at_end_at w b blk Hh). cbn.
      split; [exact Hh|]. split; [unfold len; lia | reflexivity].
    + do 4 right. cbn [method_wf]. rewrite Hh. split; [intros [? ?]; discriminate|].
      unfold position_at_end. unfold_M. cbn. now rewrite Hh.
Qed.

Lemma list_insert_py_sublist {A} (i : Z) (x : A) (l : list A) :
  l `sublist_of` list_insert_py i x l.
Proof.
  unfold list_insert_py. set (n := Z.to_nat _).
  rewrite <- (take_drop n l) at 1.
  apply sublist_app; [reflexivity|]. now apply sublist_cons.
Qed.

(** One method call, seen from any block of the store. *)
Lemma exec_block_step (m : method) (w : World) (a : addr) (blk : Block) :
  heap w !! a = Some blk ->
  exists blk',
    heap (exec m w) !! a = Some blk' /\
    parent blk' = parent blk /\
    instructions blk `sublist_of` instructions blk' /\
    (forall t, terminator blk = Some t -> terminator blk' = Some t).
Proof.
  intros Hh.
  destruct (exec_cases m w) as
    [-> | [(a0 & blk0 & i & [_ Hh0] & ->) | [(a0 & blk0 & t0 & [_ Hh0] & Hn & ->)
    | [(a0 & blk0 & z & _ & _ & ->) | (_ & ->)]]]].
  - exists blk. now repeat split.
  - destruct (decide (a0 = a)) as [->|Hne].
    + assert (blk0 = blk) as -> by congruence.
      eexists. split; [apply lookup_insert_eq|]. cbn.
      split; [reflexivity|]. split; [apply list_insert_py_sublist | auto].
    + exists blk. cbn. rewrite lookup_insert_ne by exact Hne. now repeat split.
  - destruct (decide (a0 = a)) as [->|Hne].
    + assert (blk0 = blk) as -> by congruence.
      eexists. split; [apply lookup_insert_eq|]. cbn.
      split; [reflexivity|]. split; [reflexivity|]. congruence.
    + exists blk. cbn. rewrite lookup_insert_ne by exact Hne. now repeat split.
  - exists blk. now repeat split.
  - exists blk. now repeat split.
Qed.

Lemma exec_none_step (m : method) (w : World) (a : addr) :
  heap w !! a = None -> heap (exec m w) !! a = None.
Proof.
  intros Hh.
  destruct (exec_cases m w) as
    [-> | [(a0 & blk0 & i & [_ Hh0] & ->) | [(a0 & blk0 & t0 & [_ Hh0] & Hn & ->)
    | [(a0 & blk0 & z & _ & _ & ->) | (_ & ->)]]]]; try exact Hh;
    cbn; rewrite lookup_insert_ne; congruence.
Qed.

(** X9.  Whatever methods of the builder are called, in whatever order and
    whether they return or raise, the builder never creates or deletes a
    block, never changes the function a block belongs to, and never removes
    or reorders instructions: the sequence a block had is a subsequence of
    the one it has afterwards. *)
Theorem blocks_only_grow (ms : list method) (w : World) (a : addr) :
  match heap w !! a with
  | Some blk =>
      exists blk',
        heap (exec_all ms w) !! a = Some blk' /\
        parent blk' = parent blk /\
        instructions blk `sublist_of` instructions blk'
  | None => heap (exec_all ms w) !! a = None
  end.
Proof.
  revert w. induction ms as [|m ms IH]; intros w; cbn.
  - destruct (heap w !! a) as [blk|]; [|reflexivity].
    exists blk. now repeat split.
  - specialize (IH (exec m w)). fold (exec_all ms (exec m w)).
    destruct (heap w !! a) as [blk|] eqn:Hh.
    + destruct (exec_block_step m w a blk Hh) as (blk1 & Hh1 & Hp1 & Hs1 & _).
      rewrite Hh1 in IH. destruct IH as (blk' & Hh' & Hp' & Hs').
      exists blk'. split; [exact Hh'|]. split; [congruence|].
      now transitivity (instructions blk1).
    + now rewrite (exec_none_step m w a Hh) in IH.
Qed.

(** X10.  The terminator of a block is written once: after a block has a
    terminator, no run of builder methods, returning or raising, replaces or
    removes it. *)
Theorem terminator_is_written_once (ms : list method) (w : World) (a : addr)
    (blk : Block) (t : Value) :
  heap w !! a = Some blk ->
  terminator blk = Some t ->
  exists blk',
    heap (exec_all ms w) !! a = Some blk' /\ terminator blk' = Some t.
Proof.
  revert w blk. induction ms as [|m ms IH]; intros w blk Hh Ht; cbn.
  - now exists blk.
  - destruct (exec_block_step m w a blk Hh) as (blk1 & Hh1 & _ & _ & Ht1).
    exact (IH (exec m w) blk1 Hh1 (Ht1 t Ht)).
Qed.

Lemma terminator_is_written_once_witness :
  heap w_closed !! 7%nat = Some entry_closed /\
  terminator entry_closed = Some br8 /\
  exists blk',
    heap (exec_all [MRetVoid; MCall (CallAdd one two "x"); MJump (BlockRef 7%nat)]
            w_closed) !! 7%nat = Some blk' /\
    terminator blk' = Some br8.
Proof.
  split; [reflexivity|]. split; [reflexivity|].
  exact (terminator_is_written_once
           [MRetVoid; MCall (CallAdd one two "x"); MJump (BlockRef 7%nat)]
           w_closed 7%nat entry_closed br8 eq_refl eq_refl).
Defined.

(** ** The cursor stays inside its block *)

Lemma exec_cursor_ok (m : method) (w : World) :
  cursor_ok w -> method_wf (heap w) m -> cursor_ok (exec m w).
Proof.
  intros Hok Hwf.
  destruct (exec_cases m w) as
    [-> | [(a & blk & i & [Hb Hh] & ->) | [(a & blk & t & [Hb Hh] & Hn & ->)
    | [(a & blk & z & Hh & Hz & ->) | (Hnwf & _)]]]].
  - exact Hok.
  - unfold cursor_ok in *. rewrite Hb in Hok. cbn.
    destruct Hok as (blk0 & Hh0 & Hin).
    assert (blk0 = blk) as -> by congruence.
    eexists. split; [apply lookup_insert_eq|]. cbn.
    unfold len in *. rewrite list_insert_py_length. lia.
  - unfold cursor_ok in *. rewrite Hb in *. cbn. rewrite Hb.
    destruct Hok as (blk0 & Hh0 & Hin).
    assert (blk0 = blk) as -> by congruence.
    eexists. split; [apply lookup_insert_eq|]. exact Hin.
  - unfold cursor_ok. cbn. now exists blk.
  - contradiction.
Qed.

Lemma method_wf_step (m m' : method) (w : World) :
  method_wf (heap w) m' -> method_wf (heap (exec m w)) m'.
Proof.
  assert (Hdom : forall b, is_Some (heap w !! b) -> is_Some (heap (exec m w) !! b)).
  { intros b [blk Hh].
    destruct (exec_block_step m w b blk Hh) as (blk' & Hh' & _). now exists blk'. }
  destruct m'; cbn; auto.
Qed.

(** X11.  The anchor never leaves its block.  A builder created on an
    existing block, or on none, has a cursor that is either without block or
    in an existing block with its anchor between 0 and the length of that
    block's sequence; and every run of builder methods on existing blocks,
    returning or raising, keeps the cursor so, as long as the [find] of each
    positioning call returns an index of the sequence it searched or -1, or
    raises. *)
Theorem cursor_stays_inside_its_block :
  (forall (block : option addr) (w : World),
     (forall a, block = Some a -> is_Some (heap w !! a)) ->
     cursor_ok (after (init block w))) /\
  (forall (ms : list method) (w : World),
     cursor_ok w ->
     Forall (method_wf (heap w)) ms ->
     cursor_ok (exec_all ms w)).
Proof.
  split.
  - intros [a|] w Hex; [|exact I].
    destruct (Hex a eq_refl) as [blk Hh].
    unfold init, cursor_ok. unfold_M. cbn. rewrite Hh. cbn.
    exists blk. split; [exact Hh | unfold len; lia].
  - intros ms. induction ms as [|m ms IH]; intros w Hok Hwf; [exact Hok|].
    apply Forall_cons in Hwf as [Hm Hms]. cbn.
    apply IH; [now apply exec_cursor_ok|].
    eapply Forall_impl; [exact Hms|]. intros m'. apply method_wf_step.
Qed.

Lemma cursor_stays_inside_its_block_witness :
  cursor_ok w_body /\
  Forall (method_wf (heap w_body))
    [MPositionBefore finds_last sub12; MCall (CallAdd one two "x");
     MPositionAtEnd 7%nat] /\
  cursor_ok
    (exec_all
       [MPositionBefore finds_last sub12; MCall (CallAdd one two "x");
        MPositionAtEnd 7%nat]
       w_body).
Proof.
  assert (Hok : cursor_ok w_body).
  { exists body. split; [reflexivity|]. vm_compute. split; discriminate. }
  assert (Hlast : finds_in_range finds_last sub12).
  { intros l k [= <-]. unfold len. lia. }
  assert (Hwf : Forall (method_wf (heap w_body))
                  [MPositionBefore finds_last sub12; MCall (CallAdd one two "x");
                   MPositionAtEnd 7%nat]).
  { constructor; [exact Hlast|]. constructor; [exact I|].
    constructor; [now exists entry | constructor]. }
  split; [exact Hok|]. split; [exact Hwf|].
  exact (proj2 cursor_stays_inside_its_block _ w_body Hok Hwf).
Defined.

(** ** Creating the builder *)

(** X12.  A builder created on an existing block stands at the end of that
    block: a run of accepted constructor calls made right after the creation
    returns and puts its instructions, in call order, behind those the block
    had.  A builder created without block has no block and anchor 0, and its
    constructors raise until it is positioned. *)
Theorem new_builder_appends (cs : list call) (w : World) (b : addr)
    (blk : Block) :
  heap w !! b = Some blk ->
  Forall (fun c => accepted c = true) cs ->
  (exists new w' blk',
     (init (Some b);; run_all cs) w = Return new w' /\
     at_block w' b blk' /\
     instructions blk' = instructions blk ++ new /\
     _anchor (self w') = len (instructions blk) + len new) /\
  init None w = Return tt {| heap := heap w; self := mkBuilder None 0 |} /\
  (forall c, accepted c = true ->
     (init None;; run c) w
     = Raise (AttributeError "'NoneType' object has no attribute 'parent'")
         {| heap := heap w; self := mkBuilder None 0 |}).
Proof.
  intros Hh Hacc. split; [|split].
  - destruct (run_all_after_position_at_end cs w b blk Hh Hacc)
      as (new & w' & blk' & R & Hrest).
    exists new, w', blk'. split; [|exact Hrest].
    rewrite <- R. unfold init, position_at_end. unfold_M. cbn.
    now rewrite Hh.
  - reflexivity.
  - intros c Hc.
    set (w0 := {| heap := heap w; self := mkBuilder None 0 |}).
    assert (Hinit : init None w = Return tt w0) by reflexivity.
    rewrite (bind_Return _ _ _ _ _ Hinit).
    destruct (run_cases c w0) as [(_ & g & ->) | (Hrej & _)]; [|congruence].
    now rewrite (bind_Raise _ _ _ _ _ (function_none w0 eq_refl)).
Qed.

Lemma new_builder_appends_witness :
  heap w_entry !! 8%nat = Some body /\
  Forall (fun c => accepted c = true) [CallStore one two] /\
  exists new w' blk',
    (init (Some 8%nat);; run_all [CallStore one two]) w_entry = Return new w' /\
    at_block w' 8%nat blk' /\
    instructions blk' = [add12; mul12; sub12] ++ new.
Proof.
  assert (Hacc : Forall (fun c => accepted c = true) [CallStore one two])
    by (repeat constructor).
  split; [reflexivity|]. split; [exact Hacc|].
  destruct (proj1 (new_builder_appends _ w_entry 8%nat body eq_refl Hacc))
    as (new & w' & blk' & R & Hat & Hi & _).
  exists new, w', blk'. split; [exact R|]. split; [exact Hat | exact Hi].
Defined.

(** ** Inserting next to an instruction *)

Lemma lookup_insert_here {A} (k : nat) (x : A) (l : list A) :
  (k <= length l)%nat -> (take k l ++ x :: drop k l) !! k = Some x.
Proof.
  intros Hk. rewrite lookup_app_r by (rewrite length_take; lia).
  rewrite length_take, Nat.min_l by lia. now rewrite Nat.sub_diag.
Qed.

Lemma lookup_insert_before {A} (k j : nat) (x : A) (l : list A) :
  (j < k)%nat -> (k <= length l)%nat ->
  (take k l ++ x :: drop k l) !! j = l !! j.
Proof.
  intros Hj Hk. rewrite lookup_app_l by (rewrite length_take; lia).
  now apply lookup_take_lt.
Qed.

Lemma lookup_insert_after {A} (k j : nat) (x : A) (l : list A) :
  (k <= j)%nat -> (k <= length l)%nat ->
  (take k l ++ x :: drop k l) !! S j = l !! j.
Proof.
  intros Hj Hk. rewrite lookup_app_r by (rewrite length_take; lia).
  rewrite length_take, Nat.min_l by lia.
  replace (S j - k)%nat with (S (j - k)) by lia.
  change ((x :: drop k l) !! S (j - k)%nat) with (drop k l !! (j - k)%nat).
  rewrite lookup_drop. f_equal. lia.
Qed.

(** A call made right after the cursor was put at anchor [z] of its own
    block. *)
Lemma run_at_anchor (c : call) w a blk (k : nat) :
  at_block w a blk ->
  (k <= length (instructions blk))%nat ->
  accepted c = true ->
  exists i w' blk',
    run c {| heap := heap w;
             self := {| _block := Some a; _anchor := Z.of_nat k |} |}
    = Return i w' /\
    at_block w' a blk' /\
    instructions blk' = take k (instructions blk) ++ i :: drop k (instructions blk).
Proof.
  intros [Hb Hh] Hk Hacc.
  set (w0 := {| heap := heap w; self := _ |}).
  assert (Hat : at_block w0 a blk) by (split; [reflexivity | exact Hh]).
  destruct (run_accepted_at c w0 a blk Hat Hacc) as [i R].
  exists i, (inserted w0 a blk i). eexists.
  split; [exact R|]. split; [apply at_block_inserted|]. cbn.
  rewrite list_insert_py_in_range by (unfold len; lia).
  now rewrite Nat2Z.id.
Qed.

(** X13.  When [find] returns for the instruction an index [n] of the
    cursor's block at which the instruction stands, [position_after] followed
    by an accepted constructor call inserts the new instruction directly
    behind it: the instruction stays at index [n], the new one is at index
    [n + 1], and the instructions that followed are shifted by one. *)
Theorem insert_after_instruction (find : finder) (c : call) (w : World)
    (a : addr) (blk : Block) (instr : Value) (n : nat) :
  at_block w a blk ->
  find instr (instructions blk) = Val (Z.of_nat n) ->
  instructions blk !! n = Some instr ->
  accepted c = true ->
  exists i w' blk',
    (position_after find instr;; run c) w = Return i w' /\
    at_block w' a blk' /\
    instructions blk'
    = take (S n) (instructions blk) ++ i :: drop (S n) (instructions blk) /\
    instructions blk' !! n = Some instr /\
    instructions blk' !! S n = Some i.
Proof.
  intros Hat Hk Hn Hacc.
  pose proof (lookup_lt_Some _ _ _ Hn) as Hlt.
  rewrite (bind_Return _ _ _ _ _ (position_after_at find w a blk instr _ Hat Hk)).
  replace (Z.min (Z.of_nat n + 1) (len (instructions blk)))
    with (Z.of_nat (S n)) by (unfold len; lia).
  destruct (run_at_anchor c w a blk (S n) Hat Hlt Hacc)
    as (i & w' & blk' & R & Hat' & Hi).
  exists i, w', blk'. split; [exact R|]. split; [exact Hat'|].
  split; [exact Hi|]. rewrite Hi. split.
  - rewrite lookup_insert_before by lia. exact Hn.
  - now apply lookup_insert_here.
Qed.

Lemma insert_after_instruction_witness :
  at_block w_body 8%nat body /\
  answers 1 mul12 (instructions body) = Val 1 /\
  instructions body !! 1%nat = Some mul12 /\
  accepted (CallLoad one "l") = true /\
  exists i w' blk',
    (position_after (answers 1) mul12;; run (CallLoad one "l")) w_body
    = Return i w' /\
    at_block w' 8%nat blk' /\
    instructions blk' = [add12; mul12] ++ i :: [sub12].
Proof.
  assert (Hat : at_block w_body 8%nat body) by (split; reflexivity).
  split; [exact Hat|]. split; [reflexivity|]. split; [reflexivity|].
  split; [reflexivity|].
  destruct (insert_after_instruction (answers 1) (CallLoad one "l") w_body 8%nat
              body mul12 1 Hat eq_refl eq_refl eq_refl)
    as (i & w' & blk' & R & Hat' & Hi & _).
  exists i, w', blk'. split; [exact R|]. split; [exact Hat' | exact Hi].
Defined.

(** X14.  When [find] returns for the instruction an index [n] of the
    cursor's block at which the instruction stands, [position_before]
    followed by an accepted constructor call inserts the new instruction at
    index [n - 1] (at index 0 when [n] is 0), not at index [n]: the
    instruction itself moves to index [n + 1], and when [n] is at least 1
    its old predecessor stands between the new instruction and it. *)
Theorem insert_before_instruction (find : finder) (c : call) (w : World)
    (a : addr) (blk : Block) (instr : Value) (n : nat) :
  at_block w a blk ->
  find instr (instructions blk) = Val (Z.of_nat n) ->
  instructions blk !! n = Some instr ->
  accepted c = true ->
  exists i w' blk',
    (position_before find instr;; run c) w = Return i w' /\
    at_block w' a blk' /\
    instructions blk'
    = take (Nat.pred n) (instructions blk)
      ++ i :: drop (Nat.pred n) (instructions blk) /\
    instructions blk' !! Nat.pred n = Some i /\
    instructions blk' !! S n = Some instr /\
    ((1 <= n)%nat ->
     instructions blk' !! n = instructions blk !! Nat.pred n).
Proof.
  intros Hat Hk Hn Hacc.
  pose proof (lookup_lt_Some _ _ _ Hn) as Hlt.
  rewrite (bind_Return _ _ _ _ _ (position_before_at find w a blk instr _ Hat Hk)).
  replace (Z.max 0 (Z.of_nat n - 1)) with (Z.of_nat (Nat.pred n)) by lia.
  destruct (run_at_anchor c w a blk (Nat.pred n) Hat ltac:(lia) Hacc)
    as (i & w' & blk' & R & Hat' & Hi).
  exists i, w', blk'. split; [exact R|]. split; [exact Hat'|].
  split; [exact Hi|]. rewrite Hi. split; [apply lookup_insert_here; lia|].
  split.
  - rewrite lookup_insert_after by lia. exact Hn.
  - intros Hpos. replace n with (S (Nat.pred n)) at 1 by lia.
    apply lookup_insert_after; lia.
Qed.

Lemma insert_before_instruction_witness :
  at_block w_body 8%nat body /\
  answers 2 sub12 (instructions body) = Val 2 /\
  instructions body !! 2%nat = Some sub12 /\
  accepted (CallLoad one "l") = true /\
  exists i w' blk',
    (position_before (answers 2) sub12;; run (CallLoad one "l")) w_body
    = Return i w' /\
    at_block w' 8%nat blk' /\
    instructions blk' = [add12] ++ i :: [mul12; sub12].
Proof.
  assert (Hat : at_block w_body 8%nat body) by (split; reflexivity).
  split; [exact Hat|]. split; [reflexivity|]. split; [reflexivity|].
  split; [reflexivity|].
  destruct (insert_before_instruction (answers 2) (CallLoad one "l") w_body 8%nat
              body sub12 2 Hat eq_refl eq_refl eq_refl)
    as (i & w' & blk' & R & Hat' & Hi & _).
  exists i, w', blk'. split; [exact R|]. split; [exact Hat' | exact Hi].
Defined.

(** ** What the constructors can produce *)

Lemma spec_icmp_range (cmpop base : string) :
  spec_base cmpop = Some base ->
  spec_icmp "s" base ∈ signed_predicates /\
  spec_icmp "u" base ∈ unsigned_predicates.
Proof.
  unfold spec_base, signed_predicates, unsigned_predicates.
  repeat (case_decide; [intros [= <-]; vm_compute; split; set_solver|]).
  discriminate.
Qed.

Lemma icmp_inv_Return (prefix cmpop : string) (lhs rhs : Value) (name : string)
    w i w' :
  (op ← getitem _CMP_MAP cmpop;
   let op := if bool_decide (cmpop ∉ ["=="; "!="]) then prefix +:+ op else op in
   f ← function;
   let instr := ICMPInstr f op lhs rhs name in
   _insert instr;; mret instr) w = Return i w' ->
  exists base f,
    spec_base cmpop = Some base /\
    i = ICMPInstr f (spec_icmp prefix base) lhs rhs name.
Proof.
  intros H. apply bind_inv_Return in H as (base & w1 & Hget & H).
  unfold getitem in Hget. rewrite _CMP_MAP_lookup in Hget.
  destruct (spec_base cmpop) as [base'|] eqn:Hb; [|discriminate].
  injection Hget as -> ->. cbv zeta in H.
  rewrite (icmp_prefix_agrees prefix cmpop base Hb) in H.
  apply (emit_inv_Return (fun f => ICMPInstr f _ lhs rhs name)) in H
    as (a & blk & _ & -> & _).
  now exists base, (parent blk).
Qed.

(** X15.  An integer comparison never carries a predicate outside its
    family: whenever [icmp_signed] returns, the predicate of the instruction
    is one of [sgt], [slt], [eq], [ne], [sge], [sle], and whenever
    [icmp_unsigned] returns it is one of [ugt], [ult], [eq], [ne], [uge],
    [ule]; the operands and the name are those passed. *)
Theorem icmp_predicates_are_closed (cmpop : string) (lhs rhs : Value)
    (name : string) (w : World) (i : Value) (w' : World) :
  (icmp_signed cmpop lhs rhs name w = Return i w' ->
   exists f op, i = ICMPInstr f op lhs rhs name /\ op ∈ signed_predicates) /\
  (icmp_unsigned cmpop lhs rhs name w = Return i w' ->
   exists f op, i = ICMPInstr f op lhs rhs name /\ op ∈ unsigned_predicates).
Proof.
  split; intros H.
  - apply (icmp_inv_Return "s") in H as (base & f & Hb & ->).
    exists f, (spec_icmp "s" base).
    split; [reflexivity | apply (spec_icmp_range cmpop base Hb)].
  - apply (icmp_inv_Return "u") in H as (base & f & Hb & ->).
    exists f, (spec_icmp "u" base).
    split; [reflexivity | apply (spec_icmp_range cmpop base Hb)].
Qed.

Lemma icmp_predicates_are_closed_witness :
  icmp_signed ">=" one wide "c" w_body
  = Return (ICMPInstr 3%nat "sge" one wide "c")
      (inserted w_body 8%nat body (ICMPInstr 3%nat "sge" one wide "c")) /\
  exists f op,
    ICMPInstr 3%nat "sge" one wide "c" = ICMPInstr f op one wide "c" /\
    op ∈ signed_predicates.
Proof.
  assert (R : icmp_signed ">=" one wide "c" w_body
              = Return (ICMPInstr 3%nat "sge" one wide "c")
                  (inserted w_body 8%nat body (ICMPInstr 3%nat "sge" one wide "c")))
    by reflexivity.
  split; [exact R|].
  exact (proj1 (icmp_predicates_are_closed ">=" one wide "c" w_body _ _) R).
Defined.

(** X16.  The result of an arithmetic constructor has the type of its
    operands, so it can be fed back at once: with operands of equal types
    and the builder in a block, an arithmetic constructor applied to the
    result of another and to one of the original operands returns, and both
    instructions are in the block, the first directly before the second at
    the anchor. *)
Theorem arithmetic_results_chain (op1 op2 : string) (w : World) (a : addr)
    (blk : Block) (lhs rhs : Value) (n1 n2 : string) :
  at_block w a blk ->
  0 <= _anchor (self w) <= len (instructions blk) ->
  type_of lhs = type_of rhs ->
  let r := Instruction (parent blk) (type_of lhs) op1 [lhs; rhs] n1 in
  let s := Instruction (parent blk) (type_of lhs) op2 [r; rhs] n2 in
  exists w' blk',
    (x ← _binop op1 lhs rhs n1; _binop op2 x rhs n2) w = Return s w' /\
    type_of r = type_of lhs /\
    type_of s = type_of lhs /\
    at_block w' a blk' /\
    instructions blk'
    = take (Z.to_nat (_anchor (self w))) (instructions blk)
      ++ [r; s] ++ drop (Z.to_nat (_anchor (self w))) (instructions blk).
Proof.
  intros Hat Hin Heq r s.
  pose proof (_binop_at op1 lhs rhs n1 w a blk Hat Heq) as R1. cbv zeta in R1.
  fold r in R1.
  pose proof (at_block_inserted w a blk r) as Hat1.
  assert (Heq2 : type_of r = type_of rhs) by exact Heq.
  pose proof (_binop_at op2 r rhs n2 _ a _ Hat1 Heq2) as R2. cbv zeta in R2.
  eexists. eexists. split.
  - rewrite (bind_Return _ _ _ _ _ R1). exact R2.
  - split; [reflexivity|]. split; [reflexivity|].
    split; [apply at_block_inserted|]. cbn.
    set (k := _anchor (self w)) in *.
    assert (Hn : (Z.to_nat k <= length (instructions blk))%nat)
      by (unfold len in Hin; lia).
    rewrite (list_insert_py_in_range k) by exact Hin.
    rewrite list_insert_py_in_range.
    + replace (Z.to_nat (k + 1)) with (S (Z.to_nat k)) by lia.
      rewrite take_insert_here, drop_insert_here by exact Hn.
      now rewrite <- app_assoc.
    + unfold len in *. rewrite length_app. cbn.
      rewrite length_take, length_drop. lia.
Qed.

Lemma arithmetic_results_chain_witness :
  at_block w_body 8%nat body /\
  0 <= _anchor (self w_body) <= len (instructions body) /\
  type_of one = type_of two /\
  exists w' blk',
    (x ← _binop "add" one two "x"; _binop "mul" x two "y") w_body
    = Return (Instruction 3%nat (Some i32) "mul"
                [Instruction 3%nat (Some i32) "add" [one; two] "x"; two] "y") w' /\
    at_block w' 8%nat blk'.
Proof.
  assert (Hat : at_block w_body 8%nat body) by (split; reflexivity).
  assert (Hin : 0 <= _anchor (self w_body) <= len (instructions body))
    by (vm_compute; split; discriminate).
  split; [exact Hat|]. split; [exact Hin|]. split; [reflexivity|].
  destruct (arithmetic_results_chain "add" "mul" w_body 8%nat body one two "x" "y"
              Hat Hin eq_refl) as (w' & blk' & R & _ & _ & Hat' & _).
  exists w', blk'. split; [exact R | exact Hat'].
Defined.
